(** * ReadwiseModal: a shallow embedding of [components/ReadwiseModal.js]

    The component is a React function component.  Its code is a set of
    closures (event handlers, effect bodies, an async fetch routine) that
    talk to two runtimes: React (state hooks, refs, effects) and the
    browser (window listeners, animation frames, [fetch], the console).

    The embedding keeps the two apart:

    - every closure of the source is a pure function from the values it
      closes over (a render snapshot) to the list of calls it makes, in
      program order ([Cmd]);
    - the runtimes are an interpreter of those calls over a [World].

    Numbers are modelled as the code has them: coordinates are binary64
    floats ([PrimFloat]) and the array index is an integer.  The outcome
    of [Math.random()] is an input of the refresh action, a rational
    (every double is one); its product with the length is taken exactly,
    and [Binary64] states what the rounding of that product can do, so
    that the bounds on the index are proved for the rounded product too. *)

From Stdlib Require Import Bool List String Ascii ZArith QArith Qround Qabs.
From Stdlib Require Import Floats DecimalString Lia.
From Stdlib Require DecimalNat DecimalFacts.
Import ListNotations.

Set Implicit Arguments.

Close Scope Q_scope.
Local Open Scope string_scope.

(** ** JavaScript values used by the component *)

Module JS.

(** A non-empty string is truthy; [null]/[undefined] ([None]) is falsy. *)
Definition truthy_string (s : string) : bool := negb (String.eqb s "").

Definition truthy (o : option string) : bool :=
  match o with
  | Some s => truthy_string s
  | None => false
  end.

(** [String.prototype.includes]. *)
Fixpoint includes (hay needle : string) : bool :=
  if String.prefix needle hay then true
  else match hay with
       | EmptyString => false
       | String _ rest => includes rest needle
       end.

(** A non-negative integer inside a template literal. *)
Definition number_to_string (n : nat) : string :=
  NilZero.string_of_uint (Nat.to_uint n).

(** A nullable string inside a template literal. *)
Definition template (o : option string) : string :=
  match o with
  | Some s => s
  | None => "null"
  end.

(** An animation-frame handle is a number; [if (handle)] tests it against 0. *)
Definition truthy_handle (h : Z) : bool := negb (Z.eqb h 0).

(** [xs[i]] for an integer [i]: [undefined] outside the array. *)
Definition index (A : Type) (xs : list A) (i : Z) : option A :=
  if (i <? 0)%Z then None else nth_error xs (Z.to_nat i).

(** [Math.floor(r * n)] for the outcome [r] of [Math.random()] and an
    array length [n], with the product taken exactly.  The code floors
    the product rounded to binary64, so for one outcome the two indices
    can differ by the rounding (0x1.5555555555555p-1 and 3 items: 1 here,
    2 in the code).  [floor_rounded_bounds] gives the bounds for the
    rounded product, and [rounded_index_selected] shows that every index
    the code can select is selected here for some outcome of [0, 1): what
    holds for every outcome here holds for every index of the code. *)
Definition floor_mul (r : Q) (n : nat) : Z :=
  Qfloor (r * inject_Z (Z.of_nat n))%Q.

End JS.

(** ** Data *)

(** [{ x, y }] *)
Record Point := mkPoint { px : float; py : float }.

Definition origin : Point := mkPoint 0%float 0%float.

(** An element of [data.highlights]; the component reads three fields. *)
Record HighlightItem := mkItem {
  text : string;
  title : option string;
  author : option string
}.

(** [blog.config]: the two keys the component reads. *)
Module BLOG.
Record Config := mk {
  READWISE_ENABLED : bool;
  READWISE_API_KEY : option string
}.
End BLOG.

(** The fields of a pointer event the handlers read. *)
Record PointerEvent := mkPointer {
  pointerType : string;
  button : Z;
  clientX : float;
  clientY : float
}.

(** The body of a response, as [response.json()] settles.  It rejects with
    a message ([BodyInvalid]), or it resolves to a value [data]:
    - [null] ([BodyNull]): reading [data.highlights] then throws a
      TypeError, whose message is the engine's and comes with the value;
    - any other value ([BodyData]), by what [data.highlights] reads: an
      array of items, or [undefined] ([None]) for an object without that
      key and for a number, a string, a boolean or an array.
    A [highlights] that is no array is outside the model. *)
Inductive Body :=
| BodyInvalid (message : string)
| BodyNull (type_error : string)
| BodyData (highlights : option (list HighlightItem)).

Record Response := mkResponse {
  status : nat;
  content_type : option string;
  body : Body
}.

(** [response.ok]: a status in the range 200-299. *)
Definition ok (r : Response) : bool :=
  Nat.leb 200 (status r) && Nat.leb (status r) 299.

(** How the awaited [fetch] settles. *)
Inductive FetchOutcome :=
| Rejected (message : string)
| Resolved (r : Response).

(** The request of [fetchAllHighlights]. *)
Record Request := mkRequest {
  url : string;
  method : string;
  authorization : string;
  accept : string;
  req_content_type : string;
  credentials : string
}.

(** ** The state hooks *)

Record State := mkState {
  mounted : bool;
  highlights : list HighlightItem;
  currentIndex : Z;
  isVisible : bool;
  loading : bool;
  error : option string;
  position : Point;
  isDragging : bool;
  dragOffset : Point
}.

(** The arguments of the [useState] calls. *)
Definition initialState : State := {|
  mounted := false;
  highlights := [];
  currentIndex := 0%Z;
  isVisible := true;
  loading := true;
  error := None;
  position := origin;
  isDragging := false;
  dragOffset := origin
|}.

(** ** Closures *)

(** The window listeners [handlePointerMove] and [handlePointerUp] of one
    render: the two state variables they close over, and the render that
    created them (a function's identity, which [removeEventListener]
    compares). *)
Record Listener := mkListener {
  l_id : nat;
  l_isDragging : bool;
  l_dragOffset : Point
}.

(** The arrow function handed to [requestAnimationFrame]: it closes over
    the event and over the listener's [dragOffset]. *)
Record FrameCallback := mkFrame {
  cb_event : PointerEvent;
  cb_dragOffset : Point
}.

Inductive WindowEvent := pointermove | pointerup.

Definition WindowEvent_eqb (a b : WindowEvent) : bool :=
  match a, b with
  | pointermove, pointermove | pointerup, pointerup => true
  | _, _ => false
  end.

(** ** The calls the component makes *)

Inductive Cmd :=
(* state setters *)
| setMounted (b : bool)
| setHighlights (hs : list HighlightItem)
| setCurrentIndex (i : Z)
| setIsVisible (b : bool)
| setLoading (b : bool)
| setError (e : option string)
| setPosition (p : Point)
| setIsDragging (b : bool)
| setDragOffset (p : Point)
(* console *)
| console_log (message : string)
| console_log_data (message : string) (data : option (list HighlightItem))
(* [console.log(message, data)] for a [data] that is [null] *)
| console_log_null (message : string)
| console_error (message : string) (err : string)
(* network *)
| fetch (r : Request)
(* router.events *)
| router_on_routeChangeStart
| router_off_routeChangeStart
(* window listeners *)
| addEventListener (ev : WindowEvent) (l : Listener)
| removeEventListener (ev : WindowEvent) (l : Listener)
(* [if (dragAnimationFrameRef.current)
      cancelAnimationFrame(dragAnimationFrameRef.current)] *)
| cancelPendingFrame
(* [dragAnimationFrameRef.current = requestAnimationFrame(cb)] *)
| scheduleFrame (cb : FrameCallback).

Definition is_setter (c : Cmd) : bool :=
  match c with
  | setMounted _ | setHighlights _ | setCurrentIndex _ | setIsVisible _
  | setLoading _ | setError _ | setPosition _ | setIsDragging _
  | setDragOffset _ => true
  | _ => false
  end.

(** ** The source, closure by closure *)

Section Component.

Variable BLOG : BLOG.Config.

Import BLOG.

(** Effect 1: [handleRouteChange]. *)
Definition handleRouteChange : list Cmd := [setIsVisible false].

Definition route_effect : list Cmd := [router_on_routeChangeStart].
Definition route_effect_cleanup : list Cmd := [router_off_routeChangeStart].

(** [fetchAllHighlights], up to the awaited [fetch]. *)
Definition fetchAllHighlights : list Cmd :=
  if negb (JS.truthy (READWISE_API_KEY BLOG)) then
    [ setError (Some "未配置 Readwise API Key");
      setLoading false ]
  else
    [ setLoading true;
      setError None;
      console_log "开始获取 Readwise 数据...";
      fetch {| url := "https://readwise.io/api/v2/review/";
               method := "GET";
               authorization :=
                 "Token " ++ JS.template (READWISE_API_KEY BLOG);
               accept := "application/json";
               req_content_type := "application/json";
               credentials := "omit" |} ].

(** The [catch] and [finally] blocks. *)
Definition catch_finally (message : string) : list Cmd :=
  [ console_error "获取 Readwise 数据失败:" message;
    setError (Some message);
    setLoading false ].

(** [fetchAllHighlights], from the settled [fetch] on.  The two awaits
    ([fetch], [response.json()]) are taken together: nothing is called
    between them. *)
Definition fetchAllHighlights_resume (o : FetchOutcome) : list Cmd :=
  match o with
  | Rejected message => catch_finally message
  | Resolved response =>
      if negb (ok response) then
        catch_finally
          ("API 请求失败: " ++ JS.number_to_string (status response))
      else
        let contentType := content_type response in
        if negb (JS.truthy contentType)
           || negb (JS.includes (JS.template contentType) "application/json")
        then
          catch_finally
            ("预期接收 JSON 数据，但收到 " ++ JS.template contentType)
        else
          match body response with
          | BodyInvalid message => catch_finally message
          | BodyNull type_error =>
              console_log_null "获取到的数据:" :: catch_finally type_error
          | BodyData data_highlights =>
              console_log_data "获取到的数据:" data_highlights ::
              match data_highlights with
              | Some (h :: hs) =>
                  [ setHighlights (h :: hs);
                    setCurrentIndex 0%Z;
                    setLoading false ]
              | _ =>
                  [ setError (Some "没有找到任何高亮内容");
                    setLoading false ]
              end
          end
  end.

(** Effect 2: the mount effect (empty dependency list). *)
Definition mount_effect : list Cmd :=
  setMounted true ::
  console_log "%c ReadwiseModal useEffect 触发" ::
  (if READWISE_ENABLED BLOG then fetchAllHighlights else []).

(** [refreshHighlight]; [random] is the value of [Math.random()]. *)
Definition refreshHighlight (s : State) (random : Q) : list Cmd :=
  match highlights s with
  | [] => []
  | _ :: _ =>
      let randomIndex := JS.floor_mul random (List.length (highlights s)) in
      [setCurrentIndex randomIndex]
  end.

(** [const highlight = highlights[currentIndex] || null]: an item is an
    object, hence truthy, so only [undefined] is replaced. *)
Definition highlight (s : State) : option HighlightItem :=
  match JS.index (highlights s) (currentIndex s) with
  | Some item => Some item
  | None => None
  end.

(** [handlePointerDown]: a prop of the rendered element, so it closes
    over the state of the render on screen. *)
Definition handlePointerDown (s : State) (e : PointerEvent) : list Cmd :=
  if String.eqb (pointerType e) "mouse" && negb (Z.eqb (button e) 0) then []
  else
    [ setIsDragging true;
      setDragOffset
        {| px := PrimFloat.sub (clientX e) (px (position s));
           py := PrimFloat.sub (clientY e) (py (position s)) |} ].

(** [handlePointerMove], a window listener. *)
Definition handlePointerMove (l : Listener) (e : PointerEvent) : list Cmd :=
  if negb (l_isDragging l) then []
  else
    [ cancelPendingFrame;
      scheduleFrame {| cb_event := e; cb_dragOffset := l_dragOffset l |} ].

(** The scheduled arrow function. *)
Definition frame_callback (cb : FrameCallback) : list Cmd :=
  let e := cb_event cb in
  let newX := PrimFloat.sub (clientX e) (px (cb_dragOffset cb)) in
  let newY := PrimFloat.sub (clientY e) (py (cb_dragOffset cb)) in
  [setPosition {| px := newX; py := newY |}].

(** [handlePointerUp], a window listener. *)
Definition handlePointerUp (l : Listener) (e : PointerEvent) : list Cmd :=
  [setIsDragging false].

(** Effect 3 (dependencies [isDragging], [dragOffset]); [l] stands for
    the listeners of the render the effect belongs to. *)
Definition drag_effect (l : Listener) : list Cmd :=
  if l_isDragging l then
    [ addEventListener pointermove l;
      addEventListener pointerup l ]
  else
    [ removeEventListener pointermove l;
      removeEventListener pointerup l;
      cancelPendingFrame ].

Definition drag_effect_cleanup (l : Listener) : list Cmd :=
  [ removeEventListener pointermove l;
    removeEventListener pointerup l;
    cancelPendingFrame ].

(** What the returned element shows. *)
Record View := mkView {
  v_translate : Point;
  v_grabbing : bool;
  v_spinner : bool;
  v_error : option string;
  v_quote : option HighlightItem
}.

(** The render guard and the three conditional blocks. *)
Definition render (s : State) : option View :=
  if negb (mounted s) || negb (READWISE_ENABLED BLOG) || negb (isVisible s)
  then None
  else Some {|
    v_translate := position s;
    v_grabbing := isDragging s;
    v_spinner := loading s;
    v_error := if JS.truthy (error s) then error s else None;
    v_quote :=
      if negb (loading s) && negb (JS.truthy (error s)) then highlight s
      else None
  |}.

End Component.

(** ** The runtimes: React and the browser *)

(** A component instance is rendered but not yet mounted ([Fresh]),
    mounted ([Alive]) or unmounted ([Dead]). *)
Inductive Phase := Fresh | Alive | Dead.

Record World := mkWorld {
  (* React: the component instance *)
  phase : Phase;
  state : State;
  (* the identity of the object held by [dragOffset]: each
     [setDragOffset({...})] stores a new object *)
  dragOffset_id : nat;
  (* [dragAnimationFrameRef.current] *)
  dragAnimationFrameRef : option Z;
  (* effect 3: the dependencies and the listeners of its last run *)
  drag_effect_deps : bool * nat;
  drag_effect_listener : Listener;
  fresh_closure : nat;
  (* setter calls React ignored: the instance was not mounted *)
  stale_updates : list Cmd;
  (* the browser *)
  window_listeners : list (WindowEvent * Listener);
  route_listener : bool;
  frame_callbacks : list (Z * FrameCallback);
  next_frame_handle : Z;
  requests : list Request;
  pending_fetches : nat;
  console : list Cmd
}.

Definition with_phase (p : Phase) (w : World) : World :=
  mkWorld p (state w) (dragOffset_id w) (dragAnimationFrameRef w)
    (drag_effect_deps w) (drag_effect_listener w) (fresh_closure w)
    (stale_updates w) (window_listeners w) (route_listener w)
    (frame_callbacks w) (next_frame_handle w) (requests w)
    (pending_fetches w) (console w).

Definition with_state (s : State) (w : World) : World :=
  mkWorld (phase w) s (dragOffset_id w) (dragAnimationFrameRef w)
    (drag_effect_deps w) (drag_effect_listener w) (fresh_closure w)
    (stale_updates w) (window_listeners w) (route_listener w)
    (frame_callbacks w) (next_frame_handle w) (requests w)
    (pending_fetches w) (console w).

Definition with_dragOffset_id (n : nat) (w : World) : World :=
  mkWorld (phase w) (state w) n (dragAnimationFrameRef w)
    (drag_effect_deps w) (drag_effect_listener w) (fresh_closure w)
    (stale_updates w) (window_listeners w) (route_listener w)
    (frame_callbacks w) (next_frame_handle w) (requests w)
    (pending_fetches w) (console w).

Definition with_effect (l : Listener) (w : World) : World :=
  mkWorld (phase w) (state w) (dragOffset_id w) (dragAnimationFrameRef w)
    (l_isDragging l, dragOffset_id w) l (S (fresh_closure w))
    (stale_updates w) (window_listeners w) (route_listener w)
    (frame_callbacks w) (next_frame_handle w) (requests w)
    (pending_fetches w) (console w).

Definition with_stale_updates (cs : list Cmd) (w : World) : World :=
  mkWorld (phase w) (state w) (dragOffset_id w) (dragAnimationFrameRef w)
    (drag_effect_deps w) (drag_effect_listener w) (fresh_closure w)
    cs (window_listeners w) (route_listener w)
    (frame_callbacks w) (next_frame_handle w) (requests w)
    (pending_fetches w) (console w).

Definition with_window_listeners (ls : list (WindowEvent * Listener))
  (w : World) : World :=
  mkWorld (phase w) (state w) (dragOffset_id w) (dragAnimationFrameRef w)
    (drag_effect_deps w) (drag_effect_listener w) (fresh_closure w)
    (stale_updates w) ls (route_listener w)
    (frame_callbacks w) (next_frame_handle w) (requests w)
    (pending_fetches w) (console w).

Definition with_route_listener (b : bool) (w : World) : World :=
  mkWorld (phase w) (state w) (dragOffset_id w) (dragAnimationFrameRef w)
    (drag_effect_deps w) (drag_effect_listener w) (fresh_closure w)
    (stale_updates w) (window_listeners w) b
    (frame_callbacks w) (next_frame_handle w) (requests w)
    (pending_fetches w) (console w).

Definition with_frame_callbacks (q : list (Z * FrameCallback))
  (w : World) : World :=
  mkWorld (phase w) (state w) (dragOffset_id w) (dragAnimationFrameRef w)
    (drag_effect_deps w) (drag_effect_listener w) (fresh_closure w)
    (stale_updates w) (window_listeners w) (route_listener w)
    q (next_frame_handle w) (requests w)
    (pending_fetches w) (console w).

(** [dragAnimationFrameRef.current = requestAnimationFrame(cb)]: the
    browser hands out the next handle and queues the callback. *)
Definition with_scheduled (cb : FrameCallback) (w : World) : World :=
  mkWorld (phase w) (state w) (dragOffset_id w) (Some (next_frame_handle w))
    (drag_effect_deps w) (drag_effect_listener w) (fresh_closure w)
    (stale_updates w) (window_listeners w) (route_listener w)
    (frame_callbacks w ++ [(next_frame_handle w, cb)])
    (next_frame_handle w + 1)%Z (requests w)
    (pending_fetches w) (console w).

Definition with_request (r : Request) (w : World) : World :=
  mkWorld (phase w) (state w) (dragOffset_id w) (dragAnimationFrameRef w)
    (drag_effect_deps w) (drag_effect_listener w) (fresh_closure w)
    (stale_updates w) (window_listeners w) (route_listener w)
    (frame_callbacks w) (next_frame_handle w) (requests w ++ [r])
    (S (pending_fetches w)) (console w).

Definition with_pending_fetches (n : nat) (w : World) : World :=
  mkWorld (phase w) (state w) (dragOffset_id w) (dragAnimationFrameRef w)
    (drag_effect_deps w) (drag_effect_listener w) (fresh_closure w)
    (stale_updates w) (window_listeners w) (route_listener w)
    (frame_callbacks w) (next_frame_handle w) (requests w)
    n (console w).

Definition with_console (cs : list Cmd) (w : World) : World :=
  mkWorld (phase w) (state w) (dragOffset_id w) (dragAnimationFrameRef w)
    (drag_effect_deps w) (drag_effect_listener w) (fresh_closure w)
    (stale_updates w) (window_listeners w) (route_listener w)
    (frame_callbacks w) (next_frame_handle w) (requests w)
    (pending_fetches w) cs.

(** The world before the component is mounted: the first render has
    produced the initial state; the browser has handed out no handle. *)
Definition init : World := {|
  phase := Fresh;
  state := initialState;
  dragOffset_id := 0;
  dragAnimationFrameRef := None;
  drag_effect_deps := (false, 0);
  drag_effect_listener :=
    {| l_id := 0; l_isDragging := false; l_dragOffset := origin |};
  fresh_closure := 0;
  stale_updates := [];
  window_listeners := [];
  route_listener := false;
  frame_callbacks := [];
  next_frame_handle := 1;
  requests := [];
  pending_fetches := 0;
  console := []
|}.

(** *** State setters *)

Definition apply_setter (c : Cmd) (s : State) : State :=
  match c with
  | setMounted b =>
      mkState b (highlights s) (currentIndex s) (isVisible s) (loading s)
        (error s) (position s) (isDragging s) (dragOffset s)
  | setHighlights hs =>
      mkState (mounted s) hs (currentIndex s) (isVisible s) (loading s)
        (error s) (position s) (isDragging s) (dragOffset s)
  | setCurrentIndex i =>
      mkState (mounted s) (highlights s) i (isVisible s) (loading s)
        (error s) (position s) (isDragging s) (dragOffset s)
  | setIsVisible b =>
      mkState (mounted s) (highlights s) (currentIndex s) b (loading s)
        (error s) (position s) (isDragging s) (dragOffset s)
  | setLoading b =>
      mkState (mounted s) (highlights s) (currentIndex s) (isVisible s) b
        (error s) (position s) (isDragging s) (dragOffset s)
  | setError e =>
      mkState (mounted s) (highlights s) (currentIndex s) (isVisible s)
        (loading s) e (position s) (isDragging s) (dragOffset s)
  | setPosition p =>
      mkState (mounted s) (highlights s) (currentIndex s) (isVisible s)
        (loading s) (error s) p (isDragging s) (dragOffset s)
  | setIsDragging b =>
      mkState (mounted s) (highlights s) (currentIndex s) (isVisible s)
        (loading s) (error s) (position s) b (dragOffset s)
  | setDragOffset p =>
      mkState (mounted s) (highlights s) (currentIndex s) (isVisible s)
        (loading s) (error s) (position s) (isDragging s) p
  | _ => s
  end.

(** React applies a state update to a mounted instance and ignores it
    otherwise (the handlers of one event are batched; every setter of the
    component is called with a value, so applying them in order gives the
    state of the next render). *)
Definition update (c : Cmd) (w : World) : World :=
  match phase w with
  | Alive =>
      let w' := with_state (apply_setter c (state w)) w in
      match c with
      | setDragOffset _ => with_dragOffset_id (S (dragOffset_id w)) w'
      | _ => w'
      end
  | _ => with_stale_updates (stale_updates w ++ [c]) w
  end.

(** *** Browser calls *)

Definition same_listener (ev : WindowEvent) (l : Listener)
  (x : WindowEvent * Listener) : bool :=
  WindowEvent_eqb ev (fst x) && Nat.eqb (l_id l) (l_id (snd x)).

Definition cancelAnimationFrame (h : Z) (q : list (Z * FrameCallback))
  : list (Z * FrameCallback) :=
  filter (fun x => negb (Z.eqb (fst x) h)) q.

Definition exec (c : Cmd) (w : World) : World :=
  match c with
  | console_log _ | console_log_data _ _ | console_log_null _
  | console_error _ _ =>
      with_console (console w ++ [c]) w
  | fetch r => with_request r w
  | router_on_routeChangeStart => with_route_listener true w
  | router_off_routeChangeStart => with_route_listener false w
  | addEventListener ev l =>
      with_window_listeners
        (if existsb (same_listener ev l) (window_listeners w)
         then window_listeners w
         else window_listeners w ++ [(ev, l)]) w
  | removeEventListener ev l =>
      with_window_listeners
        (filter (fun x => negb (same_listener ev l x)) (window_listeners w)) w
  | cancelPendingFrame =>
      with_frame_callbacks
        (match dragAnimationFrameRef w with
         | Some h =>
             if JS.truthy_handle h
             then cancelAnimationFrame h (frame_callbacks w)
             else frame_callbacks w
         | None => frame_callbacks w
         end) w
  | scheduleFrame cb => with_scheduled cb w
  | _ => update c w
  end.

Definition exec_all (cs : list Cmd) (w : World) : World :=
  fold_left (fun w c => exec c w) cs w.

(** *** Rendering and effects *)

(** The listeners created by the render of the current state. *)
Definition closure (w : World) : Listener :=
  {| l_id := fresh_closure w;
     l_isDragging := isDragging (state w);
     l_dragOffset := dragOffset (state w) |}.

Definition deps_eqb (a b : bool * nat) : bool :=
  Bool.eqb (fst a) (fst b) && Nat.eqb (snd a) (snd b).

(** After the handlers of an event: React renders the new state and, when
    a dependency of effect 3 changed, runs the cleanup of its last run and
    then its body.  The effects are flushed with the render, before the
    next event, as React does for the discrete events of this component. *)
Definition commit (w : World) : World :=
  match phase w with
  | Alive =>
      if deps_eqb (isDragging (state w), dragOffset_id w) (drag_effect_deps w)
      then w
      else
        let l := closure w in
        with_effect l
          (exec_all (drag_effect l)
             (exec_all (drag_effect_cleanup (drag_effect_listener w)) w))
  | _ => w
  end.

(** A click on the refresh button: [refreshHighlight] of the render on
    screen, then the render of the new state. *)
Definition reselect (random : Q) (w : World) : World :=
  commit (exec_all (refreshHighlight (state w) random) w).

(** ** Events *)

Inductive Event :=
| Mount
| Unmount
| RouteChangeStart
| ClickClose
| ClickRefresh (random : Q)
| PointerDown (e : PointerEvent)
| PointerMove (e : PointerEvent)
| PointerUp (e : PointerEvent)
| AnimationFrame
| FetchSettled (o : FetchOutcome).

Section Runtime.

Variable BLOG : BLOG.Config.

(** The element is on screen: its props can receive events. *)
Definition rendered (w : World) : bool :=
  match phase w, render BLOG (state w) with
  | Alive, Some _ => true
  | _, _ => false
  end.

(** Mounting: the three effects of the first render run in order. *)
Definition mount (w : World) : World :=
  let w := with_phase Alive w in
  let l := closure w in
  let w := exec_all route_effect w in
  let w := exec_all (mount_effect BLOG) w in
  let w := exec_all (drag_effect l) w in
  commit (with_effect l w).

(** Unmounting: the cleanups of effects 1 and 3 run. *)
Definition unmount (w : World) : World :=
  let w := exec_all route_effect_cleanup w in
  let w := exec_all (drag_effect_cleanup (drag_effect_listener w)) w in
  with_phase Dead w.

(** A window event reaches the listeners attached when it is dispatched. *)
Definition dispatch (ev : WindowEvent)
  (handler : Listener -> PointerEvent -> list Cmd) (e : PointerEvent)
  (w : World) : World :=
  fold_left
    (fun w x =>
       if WindowEvent_eqb ev (fst x) then exec_all (handler (snd x) e) w
       else w)
    (window_listeners w) w.

(** A frame: the browser empties its callback list and runs each. *)
Definition run_frame (w : World) : World :=
  fold_left
    (fun w x => exec_all (frame_callback (snd x)) w)
    (frame_callbacks w) (with_frame_callbacks [] w).

Definition step (w : World) (ev : Event) : World :=
  match ev with
  | Mount =>
      match phase w with
      | Fresh => mount w
      | _ => w
      end
  | Unmount =>
      match phase w with
      | Alive => unmount w
      | _ => w
      end
  | RouteChangeStart =>
      if route_listener w then commit (exec_all handleRouteChange w) else w
  | ClickClose =>
      if rendered w then commit (exec_all [setIsVisible false] w) else w
  | ClickRefresh random => if rendered w then reselect random w else w
  | PointerDown e =>
      if rendered w
      then commit (exec_all (handlePointerDown (state w) e) w)
      else w
  | PointerMove e => commit (dispatch pointermove handlePointerMove e w)
  | PointerUp e => commit (dispatch pointerup handlePointerUp e w)
  | AnimationFrame => commit (run_frame w)
  | FetchSettled o =>
      match pending_fetches w with
      | O => w
      | S n =>
          commit (exec_all (fetchAllHighlights_resume o)
                    (with_pending_fetches n w))
      end
  end.

Definition run (w : World) (evs : list Event) : World :=
  fold_left step evs w.

End Runtime.

(** ** Examples *)

Definition enabled_with_key : BLOG.Config :=
  {| BLOG.READWISE_ENABLED := true; BLOG.READWISE_API_KEY := Some "X" |}.

Definition enabled_without_key : BLOG.Config :=
  {| BLOG.READWISE_ENABLED := true; BLOG.READWISE_API_KEY := None |}.

Definition at_point (x y : float) : PointerEvent :=
  {| pointerType := "mouse"; button := 0; clientX := x; clientY := y |}.

Definition item (t : string) : HighlightItem :=
  {| text := t; title := None; author := None |}.

Definition json_response (hs : option (list HighlightItem)) : FetchOutcome :=
  Resolved {| status := 200;
              content_type := Some "application/json";
              body := BodyData hs |}.

(** ** Calls that leave the drag machinery alone *)

(** The part of the world the drag logic reads and writes. *)
Record DragView := mkDragView {
  dv_phase : Phase;
  dv_isDragging : bool;
  dv_dragOffset : Point;
  dv_position : Point;
  dv_dragOffset_id : nat;
  dv_ref : option Z;
  dv_deps : bool * nat;
  dv_listener : Listener;
  dv_fresh : nat;
  dv_window : list (WindowEvent * Listener);
  dv_route : bool;
  dv_frames : list (Z * FrameCallback);
  dv_next : Z
}.

Definition drag_view (w : World) : DragView := {|
  dv_phase := phase w;
  dv_isDragging := isDragging (state w);
  dv_dragOffset := dragOffset (state w);
  dv_position := position (state w);
  dv_dragOffset_id := dragOffset_id w;
  dv_ref := dragAnimationFrameRef w;
  dv_deps := drag_effect_deps w;
  dv_listener := drag_effect_listener w;
  dv_fresh := fresh_closure w;
  dv_window := window_listeners w;
  dv_route := route_listener w;
  dv_frames := frame_callbacks w;
  dv_next := next_frame_handle w
|}.

(** Setters of the fetch and visibility state, console output, requests. *)
Definition plain (c : Cmd) : bool :=
  match c with
  | setMounted _ | setHighlights _ | setCurrentIndex _ | setIsVisible _
  | setLoading _ | setError _
  | console_log _ | console_log_data _ _ | console_log_null _
  | console_error _ _
  | fetch _ => true
  | _ => false
  end.

(** ** The invariant of the drag machinery *)

Definition attached (w : World) : list (WindowEvent * Listener) :=
  if isDragging (state w)
  then [(pointermove, drag_effect_listener w);
        (pointerup, drag_effect_listener w)]
  else [].

(** At most one callback is queued, it is the one the ref names, and it
    closes over the current [dragOffset]. *)
Definition one_pending (w : World) : Prop :=
  frame_callbacks w = [] \/
  (phase w = Alive /\ isDragging (state w) = true /\
   exists h e,
     frame_callbacks w = [(h, mkFrame e (dragOffset (state w)))] /\
     dragAnimationFrameRef w = Some h).

Definition effects_inv (w : World) : Prop :=
  match phase w with
  | Fresh =>
      window_listeners w = [] /\ route_listener w = false /\
      isDragging (state w) = false
  | Alive =>
      drag_effect_deps w = (isDragging (state w), dragOffset_id w) /\
      l_isDragging (drag_effect_listener w) = isDragging (state w) /\
      l_dragOffset (drag_effect_listener w) = dragOffset (state w) /\
      window_listeners w = attached w /\
      route_listener w = true
  | Dead => window_listeners w = [] /\ route_listener w = false
  end.

Definition tracking_inv (w : World) : Prop :=
  (0 < next_frame_handle w)%Z /\
  (forall h, dragAnimationFrameRef w = Some h ->
             (0 < h < next_frame_handle w)%Z) /\
  one_pending w /\
  effects_inv w.

(** ** Which calls an event can make *)

(** Calls of the effects: listeners, router, cancelling the queued frame. *)
Definition internal (c : Cmd) : bool :=
  match c with
  | router_on_routeChangeStart | router_off_routeChangeStart
  | addEventListener _ _ | removeEventListener _ _
  | cancelPendingFrame => true
  | _ => false
  end.

(** Console output and network requests. *)
Definition is_output (c : Cmd) : bool :=
  match c with
  | console_log _ | console_log_data _ _ | console_log_null _
  | console_error _ _ | fetch _ => true
  | _ => false
  end.

(** A call is fine for [allow] when it is internal or [allow] accepts it. *)
Definition fine (allow : Cmd -> bool) (c : Cmd) : bool :=
  internal c || allow c.

(** Every list of calls a handler of the event can make is fine, and [R]
    allows the bookkeeping of the event: the change of phase, taking the
    settled fetch off the outstanding ones. *)
Definition event_fine (allow : Cmd -> bool) (R : World -> World -> Prop)
  (BLOG : BLOG.Config) (ev : Event) : Prop :=
  match ev with
  | Mount =>
      (forall w, R w (with_phase Alive w)) /\
      forallb (fine allow) (mount_effect BLOG) = true
  | Unmount => forall w, R w (with_phase Dead w)
  | RouteChangeStart => forallb (fine allow) handleRouteChange = true
  | ClickClose => fine allow (setIsVisible false) = true
  | ClickRefresh random =>
      forall s, forallb (fine allow) (refreshHighlight s random) = true
  | PointerDown e =>
      forall s, forallb (fine allow) (handlePointerDown s e) = true
  | PointerMove e =>
      forall l, forallb (fine allow) (handlePointerMove l e) = true
  | PointerUp e =>
      forall l, forallb (fine allow) (handlePointerUp l e) = true
  | AnimationFrame =>
      forall cb, forallb (fine allow) (frame_callback cb) = true
  | FetchSettled o =>
      (forall n w, R w (with_pending_fetches n w)) /\
      forallb (fine allow) (fetchAllHighlights_resume o) = true
  end.

Definition alive (w : World) : bool :=
  match phase w with
  | Alive => true
  | _ => false
  end.

Definition is_PointerDown (ev : Event) : bool :=
  match ev with
  | PointerDown _ => true
  | _ => false
  end.

Definition is_AnimationFrame (ev : Event) : bool :=
  match ev with
  | AnimationFrame => true
  | _ => false
  end.

(** Setters that can change [position], [dragOffset], and setters that can
    turn [isVisible] or [isDragging] on. *)
Definition keeps_position (c : Cmd) : bool :=
  match c with
  | setPosition _ => false
  | _ => true
  end.

Definition keeps_dragOffset (c : Cmd) : bool :=
  match c with
  | setDragOffset _ => false
  | _ => true
  end.

Definition keeps_hidden (c : Cmd) : bool :=
  match c with
  | setIsVisible true => false
  | _ => true
  end.

Definition keeps_released (c : Cmd) : bool :=
  match c with
  | setIsDragging true => false
  | _ => true
  end.

(** ** Vocabulary of the drag claims *)

(** [handlePointerDown] goes past its guard: the pointer is no mouse, or
    the button is the primary one. *)
Definition accepted (e : PointerEvent) : bool :=
  negb (String.eqb (pointerType e) "mouse" && negb (Z.eqb (button e) 0)).

(** Pointer position minus a point, coordinate by coordinate. *)
Definition minus (e : PointerEvent) (p : Point) : Point :=
  {| px := PrimFloat.sub (clientX e) (px p);
     py := PrimFloat.sub (clientY e) (py p) |}.

(** The latest pointer-move of a list of events, [lm] when it has none. *)
Definition last_move (lm : option PointerEvent) (evs : list Event)
  : option PointerEvent :=
  fold_left
    (fun lm ev => match ev with PointerMove e => Some e | _ => lm end)
    evs lm.

Definition no_PointerDown (evs : list Event) : bool :=
  forallb (fun ev => negb (is_PointerDown ev)) evs.

Definition is_PointerMove (ev : Event) : bool :=
  match ev with
  | PointerMove _ => true
  | _ => false
  end.

Definition keeps_frames (c : Cmd) : bool :=
  match c with
  | scheduleFrame _ => false
  | _ => true
  end.

(** During a gesture anchored at [anchor]: [dragOffset] is the anchor, and
    a queued callback closes over the latest pointer-move [lm]. *)
Definition gesture (anchor : Point) (lm : option PointerEvent) (w : World)
  : Prop :=
  tracking_inv w /\
  dragOffset (state w) = anchor /\
  forall h cb, In (h, cb) (frame_callbacks w) -> lm = Some (cb_event cb).

(** Not tracking: no pointer is down on a component that is not unmounted. *)
Definition idle (w : World) : Prop :=
  tracking_inv w /\ (phase w <> Dead -> isDragging (state w) = false).

(** ** Vocabulary of the fetch claims *)

(** What the fetch lifecycle reads and writes. *)
Definition fetch_view (w : World)
  : list HighlightItem * bool * option string * nat * list Request :=
  (highlights (state w), loading (state w), error (state w),
   pending_fetches w, requests w).

Definition keeps_fetch (c : Cmd) : bool :=
  match c with
  | setHighlights _ | setLoading _ | setError _ | fetch _ => false
  | _ => true
  end.

Definition is_fetch_event (ev : Event) : bool :=
  match ev with
  | Mount | FetchSettled _ => true
  | _ => false
  end.

(** The collection is on display: fetched, not loading, no error. *)
Definition is_ready (s : State) : bool :=
  negb (loading s) && negb (JS.truthy (error s))
  && match highlights s with [] => false | _ :: _ => true end.

(** The fetch lifecycle of one component instance: a filled collection
    comes with [loading = false], [error = null] and nothing outstanding;
    an outstanding fetch with [error = null]; at most one request is made. *)
Definition fetch_inv (w : World) : Prop :=
  (highlights (state w) <> [] ->
   loading (state w) = false /\ error (state w) = None /\
   pending_fetches w = 0) /\
  (pending_fetches w <> 0 ->
   error (state w) = None /\ pending_fetches w = 1) /\
  List.length (requests w) <= 1 /\
  (phase w = Fresh ->
   highlights (state w) = [] /\ pending_fetches w = 0 /\ requests w = []).

(** The setters a list of calls contains, and its console output. *)
Definition setters (cs : list Cmd) : list Cmd := filter is_setter cs.

Definition is_console (c : Cmd) : bool :=
  match c with
  | console_log _ | console_log_data _ _ | console_log_null _
  | console_error _ _ => true
  | _ => false
  end.

Definition logs (cs : list Cmd) : list Cmd := filter is_console cs.

Definition no_items : string := "没有找到任何高亮内容".
Definition missing_key : string := "未配置 Readwise API Key".

(** ** The two guards the specification asks for *)

(** A liveness guard on the continuation of [fetchAllHighlights]: when the
    fetch settles after the component was unmounted, nothing of the
    continuation happens: no setter is called, nothing is logged. *)
Definition stale_response_discarded (BLOG : BLOG.Config) (w : World)
  (o : FetchOutcome) : Prop :=
  phase w = Dead -> pending_fetches w <> 0 ->
  let w' := step BLOG w (FetchSettled o) in
  state w' = state w /\
  stale_updates w' = stale_updates w /\
  console w' = console w.

(** An in-flight guard on [fetchAllHighlights]: called while a fetch is
    outstanding, it does nothing. *)
Definition second_fetch_is_noop (BLOG : BLOG.Config) (w : World) : Prop :=
  pending_fetches w <> 0 ->
  let w' := exec_all (fetchAllHighlights BLOG) w in
  requests w' = requests w /\ pending_fetches w' = pending_fetches w.

(** ** The empty payload, as the specification has it *)

(** What a body carries once parsed: nothing when the parse fails, else the
    list of highlights of the parsed value, if it has one. *)
Definition parsed_highlights (b : Body)
  : option (option (list HighlightItem)) :=
  match b with
  | BodyInvalid _ => None
  | BodyNull _ => Some None
  | BodyData hs => Some hs
  end.

(** A fetch that succeeds (success status, JSON content type, the body
    parses) with a list of highlights that is absent or empty puts a
    mounted component in the failed state with the no-items message, the
    collection empty. *)
Definition empty_payload_reports_no_items (BLOG : BLOG.Config) (w : World)
  (r : Response) : Prop :=
  alive w = true -> pending_fetches w <> 0 ->
  ok r = true ->
  JS.truthy (content_type r) = true ->
  JS.includes (JS.template (content_type r)) "application/json" = true ->
  parsed_highlights (body r) = Some None \/
  parsed_highlights (body r) = Some (Some []) ->
  let w' := step BLOG w (FetchSettled (Resolved r)) in
  error (state w') = Some no_items /\ highlights (state w') = [].

(** The request [fetchAllHighlights] makes. *)
Definition review_request (BLOG : BLOG.Config) : Request :=
  {| url := "https://readwise.io/api/v2/review/";
     method := "GET";
     authorization := "Token " ++ JS.template (BLOG.READWISE_API_KEY BLOG);
     accept := "application/json";
     req_content_type := "application/json";
     credentials := "omit" |}.

(** ** Rounding of a product of numbers *)

Module Binary64.

(** The finite binary64 numbers are the rationals [M * 2^E] with
    [|M| < 2^53] and [-1074 <= E <= 971]; with [s = E + 1074] they are the
    fractions [M * 2^s / 2^1074]. *)
Definition half : Z := 2 ^ 1021.
Definition denominator : positive := Pos.pow 2 1074.

Definition numerator (N : Z) : Prop :=
  exists M s : Z,
    (Z.abs M < 2 ^ 53)%Z /\ (0 <= s <= 2045)%Z /\ N = (M * 2 ^ s)%Z.

Definition binary64 (q : Q) : Prop :=
  exists N, numerator N /\ (q == N # denominator)%Q.

(** [p] is a binary64 number nearest to [x], ties broken either way: what
    a multiplication of numbers returns for the exact product [x]. *)
Definition nearest (x p : Q) : Prop :=
  binary64 p /\
  forall f, binary64 f -> (Qabs (p - x) <= Qabs (f - x))%Q.

End Binary64.

(** ** Vocabulary of the display *)

Definition is_Mount (ev : Event) : bool :=
  match ev with
  | Mount => true
  | _ => false
  end.

Definition keeps_mounted (c : Cmd) : bool :=
  match c with
  | setMounted _ => false
  | _ => true
  end.

(** What the hooks of the fetch say about the display, for a component
    instance: [mounted] is set from the mount on; an error is never set
    while loading; and on a mounted component with the feature enabled,
    [loading] is true exactly while the fetch is outstanding, and a
    fetch that is over left items or an error. *)
Definition display_inv (BLOG : BLOG.Config) (w : World) : Prop :=
  (mounted (state w) = true <-> phase w <> Fresh) /\
  (loading (state w) = true -> error (state w) = None) /\
  (phase w = Alive -> BLOG.READWISE_ENABLED BLOG = true ->
   (loading (state w) = true <-> pending_fetches w <> 0) /\
   (loading (state w) = false -> highlights (state w) = [] ->
    error (state w) <> None)).

(** An outcome of [Math.random()] is a number of [0, 1). *)
Definition valid_random (ev : Event) : bool :=
  match ev with
  | ClickRefresh random => Qle_bool 0 random && negb (Qle_bool 1 random)
  | _ => true
  end.

Definition keeps_items (c : Cmd) : bool :=
  match c with
  | setHighlights _ | setCurrentIndex _ => false
  | _ => true
  end.

(** The events whose handlers write [highlights] or [currentIndex]. *)
Definition writes_items (ev : Event) : bool :=
  match ev with
  | ClickRefresh _ | FetchSettled _ => true
  | _ => false
  end.

(** [currentIndex] is an index of [highlights], and 0 while it is empty. *)
Definition index_inv (w : World) : Prop :=
  (0 <= currentIndex (state w))%Z /\
  (highlights (state w) = [] -> currentIndex (state w) = 0%Z) /\
  (highlights (state w) <> [] ->
   (currentIndex (state w)
    < Z.of_nat (List.length (highlights (state w))))%Z).

(** * Properties *)

Lemma exec_plain c w : plain c = true -> drag_view (exec c w) = drag_view w.
Proof.
  destruct c; try discriminate; intros _;
    destruct w as [[] s ? ? ? ? ? ? ? ? ? ? ? ? ?]; reflexivity.
Qed.

Lemma exec_all_plain cs w :
  forallb plain cs = true -> drag_view (exec_all cs w) = drag_view w.
Proof.
  revert w. induction cs as [|c cs IH]; intros w H; [reflexivity|].
  simpl in H. apply andb_prop in H as [Hc Hcs].
  simpl. unfold exec_all in IH. rewrite (IH _ Hcs). now apply exec_plain.
Qed.

Lemma plain_fetchAllHighlights cfg : forallb plain (fetchAllHighlights cfg) = true.
Proof. unfold fetchAllHighlights. now destruct (negb _). Qed.

Lemma plain_mount_effect cfg : forallb plain (mount_effect cfg) = true.
Proof.
  unfold mount_effect. simpl.
  destruct (BLOG.READWISE_ENABLED cfg); [apply plain_fetchAllHighlights | reflexivity].
Qed.

Lemma plain_resume o : forallb plain (fetchAllHighlights_resume o) = true.
Proof.
  destruct o as [m | r]; [reflexivity|].
  unfold fetchAllHighlights_resume.
  destruct (negb (ok r)); [reflexivity|].
  destruct (_ || _); [reflexivity|].
  destruct (body r) as [m | m | [[|h hs]|]]; reflexivity.
Qed.

Lemma plain_refreshHighlight s r : forallb plain (refreshHighlight s r) = true.
Proof. unfold refreshHighlight. now destruct (highlights s). Qed.

Lemma deps_eqb_refl d : deps_eqb d d = true.
Proof.
  unfold deps_eqb. now rewrite Bool.eqb_reflx, Nat.eqb_refl.
Qed.

(** When no dependency of effect 3 changed, a render runs no effect. *)
Lemma commit_unchanged w :
  drag_effect_deps w = (isDragging (state w), dragOffset_id w) -> commit w = w.
Proof.
  intros H. unfold commit. destruct (phase w); try reflexivity.
  now rewrite H, deps_eqb_refl.
Qed.

Lemma commit_not_alive w : phase w <> Alive -> commit w = w.
Proof. unfold commit. now destruct (phase w). Qed.

Lemma tracking_inv_ext w w' :
  drag_view w = drag_view w' -> tracking_inv w -> tracking_inv w'.
Proof.
  destruct w as [? [] ? ? ? ? ? ? ? ? ? ? ? ? ?],
           w' as [? [] ? ? ? ? ? ? ? ? ? ? ? ? ?].
  unfold drag_view. simpl. intros H. injection H as -> -> -> -> -> -> -> -> -> -> -> -> ->.
  exact (fun H => H).
Qed.

Lemma tracking_inv_init : tracking_inv init.
Proof.
  unfold tracking_inv, one_pending, effects_inv. simpl.
  repeat split; try lia; try discriminate. now left.
Qed.

Lemma tracking_commit_id w : tracking_inv w -> commit w = w.
Proof.
  intros (_ & _ & _ & He). unfold effects_inv in He.
  destruct (phase w) eqn:Hp.
  - apply commit_not_alive. congruence.
  - apply commit_unchanged. apply He.
  - apply commit_not_alive. congruence.
Qed.

Lemma tracking_inv_plain cs w :
  forallb plain cs = true -> tracking_inv w ->
  tracking_inv (commit (exec_all cs w)).
Proof.
  intros Hcs Hw.
  assert (H : tracking_inv (exec_all cs w)).
  { eapply tracking_inv_ext; [|exact Hw]. symmetry. now apply exec_all_plain. }
  now rewrite (tracking_commit_id H).
Qed.

Lemma truthy_handle_pos h : (0 < h)%Z -> JS.truthy_handle h = true.
Proof.
  intros H. unfold JS.truthy_handle. destruct (Z.eqb_spec h 0); [lia | reflexivity].
Qed.

Lemma commit_changed w :
  phase w = Alive ->
  deps_eqb (isDragging (state w), dragOffset_id w) (drag_effect_deps w) = false ->
  commit w =
  with_effect (closure w)
    (exec_all (drag_effect (closure w))
       (exec_all (drag_effect_cleanup (drag_effect_listener w)) w)).
Proof. intros Hp Hd. unfold commit. now rewrite Hp, Hd. Qed.

Lemma eqb_succ n : Nat.eqb (S n) n = false.
Proof. apply Nat.eqb_neq. lia. Qed.

Ltac world w :=
  destruct w as [ph [mt hs ci vis ld er pos drg off] oid ref deps lst fr stl
                 wl rl fq nh rq pf con].

Ltac crunch :=
  cbv beta iota zeta delta
    [mount unmount exec_all exec update apply_setter closure
     with_phase with_state with_dragOffset_id with_effect with_stale_updates
     with_window_listeners with_route_listener with_frame_callbacks
     with_scheduled with_request with_pending_fetches with_console
     route_effect route_effect_cleanup
     handleRouteChange handlePointerDown handlePointerMove handlePointerUp
     frame_callback drag_effect drag_effect_cleanup dispatch run_frame
     same_listener WindowEvent_eqb cancelAnimationFrame
     tracking_inv one_pending effects_inv attached 
     phase state dragOffset_id dragAnimationFrameRef drag_effect_deps
     drag_effect_listener fresh_closure stale_updates window_listeners
     route_listener frame_callbacks next_frame_handle requests
     pending_fetches console
     mounted highlights currentIndex isVisible loading error position
     isDragging dragOffset l_id l_isDragging l_dragOffset cb_event
     cb_dragOffset
     fold_left filter existsb app negb andb orb fst snd].

Ltac crunch_in H :=
  cbv beta iota zeta delta
    [mount unmount exec_all exec update apply_setter closure
     with_phase with_state with_dragOffset_id with_effect with_stale_updates
     with_window_listeners with_route_listener with_frame_callbacks
     with_scheduled with_request with_pending_fetches with_console
     route_effect route_effect_cleanup
     handleRouteChange handlePointerDown handlePointerMove handlePointerUp
     frame_callback drag_effect drag_effect_cleanup dispatch run_frame
     same_listener WindowEvent_eqb cancelAnimationFrame
     tracking_inv one_pending effects_inv attached 
     phase state dragOffset_id dragAnimationFrameRef drag_effect_deps
     drag_effect_listener fresh_closure stale_updates window_listeners
     route_listener frame_callbacks next_frame_handle requests
     pending_fetches console
     mounted highlights currentIndex isVisible loading error position
     isDragging dragOffset l_id l_isDragging l_dragOffset cb_event
     cb_dragOffset
     fold_left filter existsb app negb andb orb fst snd] in H.

Ltac tracking_cases w H :=
  let Hn := fresh "Hn" in let Hr := fresh "Hr" in
  let Hq := fresh "Hq" in let He := fresh "He" in
  let Hl1 := fresh "Hl" in let Hl2 := fresh "Hl" in
  let ph := fresh "ph" in let drg := fresh "drg" in
  let lst := fresh "lst" in let ref := fresh "ref" in
  let off := fresh "off" in let pos := fresh "pos" in
  let lid := fresh "lid" in let ldrg := fresh "ldrg" in
  let loff := fresh "loff" in let nh := fresh "nh" in
  let h := fresh "h" in let e := fresh "e" in
  destruct H as (Hn & Hr & Hq & He);
  destruct w as [ph [? ? ? ? ? ? pos drg off] ? ref ? lst ? ? ? ? ? nh ? ? ?];
  crunch_in Hn; crunch_in Hr; crunch_in Hq; crunch_in He;
  destruct ph;
  [ destruct He as (-> & -> & ->);
    destruct Hq as [-> | (Hq & _)]; [|discriminate Hq]
  | destruct He as (-> & Hl1 & Hl2 & -> & ->);
    destruct lst as [lid ldrg loff]; crunch_in Hl1; crunch_in Hl2;
    subst ldrg loff;
    destruct Hq as [-> | (_ & -> & h & e & -> & ->)]; [destruct drg|]
  | destruct He as [-> ->];
    destruct Hq as [-> | (Hq & _)]; [|discriminate Hq] ].

Ltac bounds :=
  repeat match goal with
  | H : forall h, Some ?x = Some h -> _ |- _ =>
      pose proof (H x eq_refl); clear H
  | H : Some _ = Some _ |- _ => injection H as <-
  | Hr : forall h, ?r = Some h -> _, H : ?r = Some ?x |- _ =>
      pose proof (Hr x H); clear Hr
  | H : None = Some _ |- _ => discriminate H
  end.

Ltac finish :=
  repeat match goal with |- _ /\ _ => split end;
  intros; bounds;
  try solve [ reflexivity | assumption | lia | discriminate | congruence
            | left; reflexivity
            | right; repeat split; eauto ].

Lemma tracking_inv_mount cfg w :
  phase w = Fresh -> tracking_inv w -> tracking_inv (mount cfg w).
Proof.
  intros Hp (Hn & Hr & Hq & He).
  unfold effects_inv in He. rewrite Hp in He. destruct He as (Hwl & Hrl & Hd).
  destruct Hq as [Hq | (Hq & _)]; [|congruence].
  unfold mount.
  remember (exec_all (mount_effect cfg) (exec_all route_effect (with_phase Alive w))) as w2 eqn:E.
  assert (Hv : drag_view w2 = drag_view (exec_all route_effect (with_phase Alive w)))
    by (subst w2; apply exec_all_plain, plain_mount_effect).
  clear E. world w. destruct w2 as [? [? ? ? ? ? ? ? ? ?] ? ? ? ? ? ? ? ? ? ? ? ? ?].
  simpl in Hp, Hn, Hr, Hq, Hwl, Hrl, Hd. subst.
  cbv in Hv. injection Hv as -> -> -> -> -> -> -> -> -> -> -> -> ->.
  rewrite commit_unchanged by reflexivity. crunch. finish.
  left. destruct ref as [h|]; [destruct (JS.truthy_handle h)|]; reflexivity.
Qed.

Ltac handles :=
  bounds;
  repeat match goal with
  | |- context [JS.truthy_handle ?h] =>
      rewrite (truthy_handle_pos (h := h)) by lia
  end;
  rewrite ?Nat.eqb_refl, ?Z.eqb_refl, ?eqb_succ.

Ltac recommit :=
  first [ rewrite commit_not_alive by (crunch; discriminate)
        | rewrite commit_unchanged by reflexivity
        | rewrite commit_changed;
          [| reflexivity | unfold deps_eqb; crunch; rewrite ?eqb_succ; reflexivity] ].

Ltac settle :=
  crunch; handles; crunch;
  repeat match goal with
  | |- context [match ?r with Some _ => _ | None => _ end] =>
      is_var r; destruct r
  | |- context [if JS.truthy_handle ?h then _ else _] =>
      destruct (JS.truthy_handle h)
  end;
  crunch; finish.

Lemma tracking_inv_unmount w :
  phase w = Alive -> tracking_inv w -> tracking_inv (unmount w).
Proof.
  intros Hp H. tracking_cases w H; try discriminate Hp; settle.
Qed.

Lemma tracking_inv_move cfg w e :
  tracking_inv w -> tracking_inv (step cfg w (PointerMove e)).
Proof.
  intros H. unfold step.
  tracking_cases w H; recommit; settle.
Qed.

Lemma tracking_inv_up cfg w e :
  tracking_inv w -> tracking_inv (step cfg w (PointerUp e)).
Proof.
  intros H. unfold step.
  tracking_cases w H; recommit; settle.
Qed.

Lemma tracking_inv_frame cfg w :
  tracking_inv w -> tracking_inv (step cfg w AnimationFrame).
Proof.
  intros H. unfold step.
  tracking_cases w H; recommit; settle.
Qed.

Lemma tracking_inv_down cfg w e :
  tracking_inv w -> tracking_inv (step cfg w (PointerDown e)).
Proof.
  intros H. unfold step.
  destruct (rendered cfg w) eqn:Hrend; [|exact H].
  assert (Hp : phase w = Alive)
    by (unfold rendered in Hrend; destruct (phase w); (reflexivity || discriminate)).
  clear Hrend. unfold handlePointerDown.
  destruct (String.eqb (pointerType e) "mouse" && negb (Z.eqb (button e) 0)).
  - change (exec_all [] w) with w. now rewrite tracking_commit_id.
  - tracking_cases w H; try discriminate Hp; recommit; settle.
Qed.

(** Every event preserves the invariant. *)
Lemma tracking_inv_step cfg w ev :
  tracking_inv w -> tracking_inv (step cfg w ev).
Proof.
  intros H. destruct ev.
  - unfold step. destruct (phase w) eqn:Hp; auto using tracking_inv_mount.
  - unfold step. destruct (phase w) eqn:Hp; auto using tracking_inv_unmount.
  - unfold step. destruct (route_listener w); [|exact H].
    now apply tracking_inv_plain.
  - unfold step. destruct (rendered cfg w); [|exact H].
    now apply tracking_inv_plain.
  - unfold step, reselect. destruct (rendered cfg w); [|exact H].
    apply tracking_inv_plain; [apply plain_refreshHighlight | exact H].
  - now apply tracking_inv_down.
  - now apply tracking_inv_move.
  - now apply tracking_inv_up.
  - now apply tracking_inv_frame.
  - unfold step. destruct (pending_fetches w) as [|n]; [exact H|].
    apply tracking_inv_plain; [apply plain_resume|].
    eapply tracking_inv_ext; [|exact H]. reflexivity.
Qed.

Lemma tracking_inv_run cfg evs w :
  tracking_inv w -> tracking_inv (run cfg w evs).
Proof.
  revert w. induction evs as [|ev evs IH]; intros w H; [exact H|].
  apply IH. now apply tracking_inv_step.
Qed.

(** ** What an event can do to the state *)

Lemma state_exec c w :
  state (exec c w)
  = if is_setter c && alive w then apply_setter c (state w) else state w.
Proof.
  unfold alive. destruct c; cbn [exec is_setter andb]; try reflexivity;
    unfold update; destruct (phase w); reflexivity.
Qed.

Lemma phase_exec c w : phase (exec c w) = phase w.
Proof.
  destruct c; cbn [exec]; try reflexivity;
    unfold update; destruct (phase w) eqn:E; exact E.
Qed.

Lemma phase_exec_all cs w : phase (exec_all cs w) = phase w.
Proof.
  revert w. induction cs as [|c cs IH]; intros w; [reflexivity|].
  cbn [exec_all fold_left]. unfold exec_all in IH. rewrite IH. apply phase_exec.
Qed.

Section Frame.

Variable allow : Cmd -> bool.
Variable R : World -> World -> Prop.
Hypothesis R_refl : forall w, R w w.
Hypothesis R_trans : forall a b c, R a b -> R b c -> R a c.
Hypothesis R_exec : forall c w, fine allow c = true -> R w (exec c w).
Hypothesis R_effect : forall l w, R w (with_effect l w).
Hypothesis R_frames : forall w, R w (with_frame_callbacks [] w).

Lemma exec_all_rel cs w :
  forallb (fine allow) cs = true -> R w (exec_all cs w).
Proof.
  revert w. induction cs as [|c cs IH]; intros w H; [apply R_refl|].
  cbn [forallb] in H. apply andb_prop in H as [Hc Hcs].
  change (exec_all (c :: cs) w) with (exec_all cs (exec c w)).
  apply R_trans with (exec c w); [now apply R_exec | now apply IH].
Qed.

Lemma fine_drag_effect l : forallb (fine allow) (drag_effect l) = true.
Proof. unfold drag_effect. now destruct (l_isDragging l). Qed.

Lemma commit_rel w : R w (commit w).
Proof.
  unfold commit. destruct (phase w); try apply R_refl.
  destruct (deps_eqb _ _); [apply R_refl|].
  eapply R_trans; [|apply R_effect].
  eapply R_trans; [|apply exec_all_rel, fine_drag_effect].
  now apply exec_all_rel.
Qed.

Lemma fold_rel (A : Type) (f : World -> A -> World) (xs : list A) w :
  (forall w x, R w (f w x)) -> R w (fold_left f xs w).
Proof.
  intros Hf. revert w. induction xs as [|x xs IH]; intros w; [apply R_refl|].
  cbn [fold_left]. eapply R_trans; [apply Hf | apply IH].
Qed.

Lemma dispatch_rel ev handler e w :
  (forall l, forallb (fine allow) (handler l e) = true) ->
  R w (dispatch ev handler e w).
Proof.
  intros H. unfold dispatch. apply fold_rel. intros w' x.
  destruct (WindowEvent_eqb ev (fst x)); [now apply exec_all_rel | apply R_refl].
Qed.

Lemma run_frame_rel w :
  (forall cb, forallb (fine allow) (frame_callback cb) = true) ->
  R w (run_frame w).
Proof.
  intros H. unfold run_frame.
  apply R_trans with (with_frame_callbacks [] w); [apply R_frames|].
  apply fold_rel. intros w' x. now apply exec_all_rel.
Qed.

Lemma mount_rel cfg w :
  (forall w, R w (with_phase Alive w)) ->
  forallb (fine allow) (mount_effect cfg) = true -> R w (mount cfg w).
Proof.
  intros Hp H. unfold mount.
  eapply R_trans; [|apply commit_rel].
  eapply R_trans; [|apply R_effect].
  eapply R_trans; [|apply exec_all_rel, fine_drag_effect].
  eapply R_trans; [|apply exec_all_rel, H].
  eapply R_trans; [|now apply exec_all_rel].
  apply Hp.
Qed.

Lemma unmount_rel w : (forall w, R w (with_phase Dead w)) -> R w (unmount w).
Proof.
  intros Hp. unfold unmount.
  eapply R_trans; [|apply Hp].
  eapply R_trans; [|now apply exec_all_rel].
  now apply exec_all_rel.
Qed.

(** An event whose handlers make only fine calls relates the world
    before to the world after. *)
Lemma step_rel cfg w ev :
  event_fine allow R cfg ev -> R w (step cfg w ev).
Proof.
  destruct ev; cbn [event_fine step]; intros H.
  - destruct (phase w); try apply R_refl. now apply mount_rel.
  - destruct (phase w); try apply R_refl. now apply unmount_rel.
  - destruct (route_listener w); [|apply R_refl].
    eapply R_trans; [|apply commit_rel]. now apply exec_all_rel.
  - destruct (rendered cfg w); [|apply R_refl].
    eapply R_trans; [|apply commit_rel]. apply exec_all_rel.
    cbn [forallb]. now rewrite H.
  - destruct (rendered cfg w); [|apply R_refl]. unfold reselect.
    eapply R_trans; [|apply commit_rel]. apply exec_all_rel, H.
  - destruct (rendered cfg w); [|apply R_refl].
    eapply R_trans; [|apply commit_rel]. apply exec_all_rel, H.
  - eapply R_trans; [|apply commit_rel]. now apply dispatch_rel.
  - eapply R_trans; [|apply commit_rel]. now apply dispatch_rel.
  - eapply R_trans; [|apply commit_rel]. now apply run_frame_rel.
  - destruct (pending_fetches w) as [|n]; [apply R_refl|].
    destruct H as [Hp Ho].
    eapply R_trans; [|apply commit_rel].
    eapply R_trans; [apply Hp|]. now apply exec_all_rel.
Qed.

End Frame.

(** The frame rule for a relation between the state before and after. *)
Lemma state_step_rel (allow : Cmd -> bool) (Q : State -> State -> Prop) :
  (forall s, Q s s) ->
  (forall a b c, Q a b -> Q b c -> Q a c) ->
  (forall c s, allow c = true -> Q s (apply_setter c s)) ->
  forall cfg w ev,
    event_fine allow (fun w w' => Q (state w) (state w')) cfg ev ->
    Q (state w) (state (step cfg w ev)).
Proof.
  intros Qr Qt Qs cfg w ev.
  apply (@step_rel allow (fun w w' => Q (state w) (state w'))); auto.
  - intros a b c. apply Qt.
  - intros c w0 Hc. rewrite state_exec.
    destruct (is_setter c) eqn:Es; [|apply Qr].
    destruct (alive w0); [|apply Qr]. apply Qs.
    unfold fine in Hc. now destruct c.
Qed.

(** Fine lists, handler by handler. *)
Ltac fine_list Hn :=
  unfold fine; cbn;
  repeat match goal with
  | |- context [?allow ?c] =>
      match type of Hn with
      | forall c, is_output c = true -> allow c = true =>
          rewrite (Hn c eq_refl)
      end
  end.

Lemma fine_resume allow o :
  (forall c, is_output c = true -> allow c = true) ->
  allow (setLoading false) = true ->
  (forall e, allow (setError e) = true) ->
  (forall hs, allow (setHighlights hs) = true) ->
  allow (setCurrentIndex 0) = true ->
  forallb (fine allow) (fetchAllHighlights_resume o) = true.
Proof.
  intros Hn H1 H2 H3 H4.
  assert (Hc : forall m, forallb (fine allow) (catch_finally m) = true).
  { intros m. fine_list Hn. now rewrite H1, H2. }
  destruct o as [m | r]; [apply Hc|].
  unfold fetchAllHighlights_resume.
  destruct (negb (ok r)); [apply Hc|].
  destruct (_ || _); [apply Hc|].
  destruct (body r) as [m | m | [[|h hs]|]];
    [apply Hc | cbn [forallb]; rewrite Hc, andb_true_r; now apply Hn | | |];
    fine_list Hn; now rewrite ?H1, ?H2, ?H3, ?H4.
Qed.

Lemma fine_mount_effect allow cfg :
  (forall c, is_output c = true -> allow c = true) ->
  allow (setMounted true) = true ->
  (forall b, allow (setLoading b) = true) ->
  (forall e, allow (setError e) = true) ->
  forallb (fine allow) (mount_effect cfg) = true.
Proof.
  intros Hn H1 H2 H3. unfold mount_effect, fetchAllHighlights.
  destruct (BLOG.READWISE_ENABLED cfg); [destruct (negb _)|];
    fine_list Hn; now rewrite ?H1, ?H2, ?H3.
Qed.

Lemma fine_refreshHighlight allow s r :
  (forall i, allow (setCurrentIndex i) = true) ->
  forallb (fine allow) (refreshHighlight s r) = true.
Proof.
  intros H. unfold refreshHighlight, fine.
  destruct (highlights s); cbn; now rewrite ?H.
Qed.

Lemma fine_handlePointerDown allow s e :
  allow (setIsDragging true) = true ->
  (forall p, allow (setDragOffset p) = true) ->
  forallb (fine allow) (handlePointerDown s e) = true.
Proof.
  intros H1 H2. unfold handlePointerDown, fine.
  destruct (_ && _); cbn; now rewrite ?H1, ?H2.
Qed.

Lemma fine_handlePointerMove allow l e :
  (forall cb, allow (scheduleFrame cb) = true) ->
  forallb (fine allow) (handlePointerMove l e) = true.
Proof.
  intros H. unfold handlePointerMove, fine.
  destruct (negb _); cbn; now rewrite ?H.
Qed.

Ltac fine_event ev :=
  destruct ev; cbn [event_fine]; try discriminate; intros;
  repeat match goal with |- _ /\ _ => split end; intros;
  try solve
    [ reflexivity | assumption
    | now apply fine_refreshHighlight
    | now apply fine_handlePointerDown
    | now apply fine_handlePointerMove
    | apply fine_mount_effect;
      [let c := fresh "c" in intros c; now destruct c | auto ..]
    | apply fine_resume;
      [let c := fresh "c" in intros c; now destruct c | auto ..] ].

(** [position] changes in an animation frame only. *)
Lemma position_step cfg w ev :
  is_AnimationFrame ev = false ->
  position (state (step cfg w ev)) = position (state w).
Proof.
  intros Hev. symmetry.
  apply (@state_step_rel keeps_position
           (fun s s' => position s = position s')); try congruence.
  - intros c s Hc. now destruct c.
  - fine_event ev.
Qed.

(** [dragOffset] changes at a pointer-down only. *)
Lemma dragOffset_step cfg w ev :
  is_PointerDown ev = false ->
  dragOffset (state (step cfg w ev)) = dragOffset (state w).
Proof.
  intros Hev. symmetry.
  apply (@state_step_rel keeps_dragOffset
           (fun s s' => dragOffset s = dragOffset s')); try congruence.
  - intros c s Hc. now destruct c.
  - fine_event ev.
Qed.

(** Only a pointer-down turns [isDragging] on. *)
Lemma isDragging_step cfg w ev :
  is_PointerDown ev = false ->
  isDragging (state w) = false -> isDragging (state (step cfg w ev)) = false.
Proof.
  intros Hev.
  apply (@state_step_rel keeps_released
           (fun s s' => isDragging s = false -> isDragging s' = false));
    auto.
  - intros c s Hc. destruct c; try exact (fun H => H). now destruct b.
  - fine_event ev.
Qed.

(** No event turns [isVisible] on. *)
Lemma isVisible_step cfg w ev :
  isVisible (state w) = false -> isVisible (state (step cfg w ev)) = false.
Proof.
  apply (@state_step_rel keeps_hidden
           (fun s s' => isVisible s = false -> isVisible s' = false));
    auto.
  - intros c s Hc. destruct c; try exact (fun H => H). now destruct b.
  - fine_event ev.
Qed.

(** The phase changes at mount and unmount only. *)
Lemma phase_commit w : phase (commit w) = phase w.
Proof.
  symmetry.
  apply (@commit_rel (fun _ => true) (fun w w' => phase w = phase w'));
    try congruence; try reflexivity.
  intros c w0 _. symmetry. apply phase_exec.
Qed.

Lemma phase_step cfg w ev :
  phase (step cfg w ev)
  = match ev, phase w with
    | Mount, Fresh => Alive
    | Unmount, Alive => Dead
    | _, p => p
    end.
Proof.
  assert (H : forall ev, ev <> Mount -> ev <> Unmount ->
                         phase (step cfg w ev) = phase w).
  { clear ev. intros ev H1 H2. symmetry.
    apply (@step_rel (fun _ => true) (fun w w' => phase w = phase w'));
      try congruence; try reflexivity.
    - intros c w0 _. symmetry. apply phase_exec.
    - destruct ev; try congruence; cbn [event_fine]; intros;
        repeat match goal with |- _ /\ _ => split end; intros;
        try reflexivity; unfold fine;
        apply forallb_forall; intros x _; apply orb_true_r. }
  destruct ev; try (rewrite H by discriminate; now destruct (phase w)).
  - cbn [step]. destruct (phase w) eqn:Hp; try exact Hp.
    unfold mount. rewrite phase_commit.
    cbn [phase with_effect]. now rewrite !phase_exec_all.
  - cbn [step]. destruct (phase w) eqn:Hp; try exact Hp. reflexivity.
Qed.

(** ** What each drag event does *)

Lemma rendered_alive cfg w : rendered cfg w = true -> phase w = Alive.
Proof.
  unfold rendered. destruct (phase w); (reflexivity || discriminate).
Qed.

(** An accepted pointer-down records the anchor and starts tracking. *)
Lemma down_spec cfg w e :
  tracking_inv w -> rendered cfg w = true -> accepted e = true ->
  let w' := step cfg w (PointerDown e) in
  dragOffset (state w') = minus e (position (state w)) /\
  isDragging (state w') = true /\
  frame_callbacks w' = [] /\
  alive w' = true.
Proof.
  intros H Hrend Hacc. cbn zeta. cbn [step]. rewrite Hrend.
  apply rendered_alive in Hrend. unfold accepted in Hacc.
  unfold handlePointerDown. apply negb_true_iff in Hacc. rewrite Hacc.
  tracking_cases w H; try discriminate Hrend; recommit; unfold alive, minus;
    settle.
Qed.

(** A pointer-move while tracking replaces the queued callback. *)
Lemma move_spec cfg w e :
  tracking_inv w ->
  let w' := step cfg w (PointerMove e) in
  state w' = state w /\ phase w' = phase w /\
  frame_callbacks w'
  = if alive w && isDragging (state w)
    then [(next_frame_handle w, mkFrame e (dragOffset (state w)))]
    else [].
Proof.
  intros H. cbn zeta. cbn [step].
  tracking_cases w H; recommit; unfold alive; settle.
Qed.

(** A frame runs the queued callback, if any, and empties the queue. *)
Lemma frame_spec cfg w :
  tracking_inv w ->
  let w' := step cfg w AnimationFrame in
  frame_callbacks w' = [] /\
  position (state w')
  = match frame_callbacks w with
    | [] => position (state w)
    | (_, cb) :: _ => minus (cb_event cb) (cb_dragOffset cb)
    end.
Proof.
  intros H. cbn zeta. cbn [step].
  tracking_cases w H; recommit; unfold minus; settle.
Qed.

(** A pointer-up stops tracking, detaches the listeners and cancels the
    queued callback. *)
Lemma up_spec cfg w e :
  tracking_inv w ->
  let w' := step cfg w (PointerUp e) in
  frame_callbacks w' = [] /\
  window_listeners w' = [] /\
  (phase w' <> Dead -> isDragging (state w') = false).
Proof.
  intros H. cbn zeta. cbn [step].
  tracking_cases w H; recommit; settle.
Qed.

(** ** Traces *)

Lemma run_app cfg w evs evs' :
  run cfg w (evs ++ evs') = run cfg (run cfg w evs) evs'.
Proof. apply fold_left_app. Qed.

Lemma run_snoc cfg w evs ev :
  run cfg w (evs ++ [ev]) = step cfg (run cfg w evs) ev.
Proof. now rewrite run_app. Qed.

Lemma tracking_inv_reachable cfg evs : tracking_inv (run cfg init evs).
Proof. apply tracking_inv_run, tracking_inv_init. Qed.

(** Only a pointer-move queues a callback. *)
Lemma frames_step cfg w ev :
  is_PointerMove ev = false ->
  incl (frame_callbacks (step cfg w ev)) (frame_callbacks w).
Proof.
  intros Hev.
  apply (@step_rel keeps_frames
           (fun w w' => incl (frame_callbacks w') (frame_callbacks w))).
  - intros w0. apply incl_refl.
  - intros a b c Hab Hbc. eapply incl_tran; eassumption.
  - intros c w0 Hc. destruct c; try discriminate Hc; cbn [exec];
      try apply incl_refl;
      try (unfold update; destruct (phase w0); apply incl_refl).
    cbn. destruct (dragAnimationFrameRef w0) as [h|]; [|apply incl_refl].
    destruct (JS.truthy_handle h); [|apply incl_refl].
    apply incl_filter.
  - intros l w0. apply incl_refl.
  - intros w0 x [].
  - fine_event ev; try apply incl_refl.
Qed.

(** ** The gesture invariant *)

Lemma gesture_step cfg anchor lm w ev :
  is_PointerDown ev = false ->
  gesture anchor lm w ->
  gesture anchor (last_move lm [ev]) (step cfg w ev).
Proof.
  intros Hev (Hinv & Hoff & Hq). split; [|split].
  - now apply tracking_inv_step.
  - now rewrite dragOffset_step.
  - intros h cb Hin. destruct (is_PointerMove ev) eqn:Em.
    + destruct ev; try discriminate Em. cbn.
      destruct (move_spec cfg e Hinv) as (_ & _ & Hf).
      rewrite Hf in Hin. destruct (alive w && isDragging (state w)).
      * destruct Hin as [Hin | []]. now injection Hin as _ <-.
      * destruct Hin.
    + apply (frames_step cfg w) in Hin; [|exact Em].
      apply Hq in Hin. now destruct ev.
Qed.

Lemma gesture_run cfg anchor evs :
  forall lm w,
    no_PointerDown evs = true ->
    gesture anchor lm w ->
    gesture anchor (last_move lm evs) (run cfg w evs).
Proof.
  induction evs as [|ev evs IH]; intros lm w Hevs Hg; [exact Hg|].
  cbn [no_PointerDown forallb] in Hevs. apply andb_prop in Hevs as [Hev Hevs].
  apply negb_true_iff in Hev.
  change (run cfg w (ev :: evs)) with (run cfg (step cfg w ev) evs).
  change (last_move lm (ev :: evs)) with (last_move (last_move lm [ev]) evs).
  apply IH; [exact Hevs | now apply gesture_step].
Qed.

(** During a gesture, a change of [position] is a frame that applies the
    latest pointer position minus the anchor. *)
Lemma gesture_position cfg anchor lm w ev :
  gesture anchor lm w ->
  position (state (step cfg w ev)) = position (state w) \/
  (ev = AnimationFrame /\
   exists m, lm = Some m /\
             position (state (step cfg w ev)) = minus m anchor).
Proof.
  intros (Hinv & Hoff & Hq).
  destruct (is_AnimationFrame ev) eqn:Ef;
    [|left; now apply position_step].
  destruct ev; try discriminate Ef.
  destruct (frame_spec cfg Hinv) as (_ & Hpos). rewrite Hpos.
  destruct Hinv as (_ & _ & [Hnil | (_ & _ & h & e & Hf & _)] & _).
  - rewrite Hnil. now left.
  - rewrite Hf. right. split; [reflexivity|]. exists e. split.
    + apply (Hq h (mkFrame e (dragOffset (state w)))).
      rewrite Hf. now left.
    + cbn. now rewrite Hoff.
Qed.

(** ** Not tracking *)

Lemma idle_frames w : idle w -> frame_callbacks w = [].
Proof.
  intros ((_ & _ & [Hnil | (Hp & Hd & _)] & _) & Hidle); [exact Hnil|].
  rewrite Hidle in Hd; [discriminate | congruence].
Qed.

Lemma idle_step cfg w ev :
  is_PointerDown ev = false ->
  idle w ->
  idle (step cfg w ev) /\
  position (state (step cfg w ev)) = position (state w).
Proof.
  intros Hev Hidle. pose proof (idle_frames Hidle) as Hnil.
  destruct Hidle as (Hinv & Hd). split; [split|].
  - now apply tracking_inv_step.
  - intros Hp. apply isDragging_step; [exact Hev|]. apply Hd.
    intros Hdead. apply Hp. rewrite phase_step, Hdead. now destruct ev.
  - destruct (is_AnimationFrame ev) eqn:Ef; [|now apply position_step].
    destruct ev; try discriminate Ef.
    destruct (frame_spec cfg Hinv) as (_ & Hpos). now rewrite Hpos, Hnil.
Qed.

Lemma idle_run cfg evs :
  forall w,
    no_PointerDown evs = true ->
    idle w ->
    idle (run cfg w evs) /\
    position (state (run cfg w evs)) = position (state w).
Proof.
  induction evs as [|ev evs IH]; intros w Hevs Hidle; [now split|].
  cbn [no_PointerDown forallb] in Hevs. apply andb_prop in Hevs as [Hev Hevs].
  apply negb_true_iff in Hev.
  change (run cfg w (ev :: evs)) with (run cfg (step cfg w ev) evs).
  destruct (@idle_step cfg w ev Hev Hidle) as (Hidle' & Hpos).
  destruct (IH _ Hevs Hidle') as (Hidle'' & Hpos').
  split; [exact Hidle'' | congruence].
Qed.

(** ** A window of pointer-moves *)

Lemma moves_state cfg ms :
  forall w,
    tracking_inv w ->
    state (run cfg w (map PointerMove ms)) = state w /\
    phase (run cfg w (map PointerMove ms)) = phase w.
Proof.
  induction ms as [|m ms IH]; intros w Hinv; [now split|].
  cbn [map].
  change (run cfg w (PointerMove m :: map PointerMove ms))
    with (run cfg (step cfg w (PointerMove m)) (map PointerMove ms)).
  destruct (move_spec cfg m Hinv) as (Hs & Hp & _).
  destruct (IH _ (tracking_inv_step cfg (PointerMove m) Hinv)) as (Hs' & Hp').
  split; congruence.
Qed.

Lemma moves_pending cfg ms m :
  forall w,
    tracking_inv w -> alive w = true -> isDragging (state w) = true ->
    exists h,
      frame_callbacks (run cfg w (map PointerMove (ms ++ [m])))
      = [(h, mkFrame m (dragOffset (state w)))].
Proof.
  induction ms as [|m0 ms IH]; intros w Hinv Ha Hd.
  - cbn. destruct (move_spec cfg m Hinv) as (_ & _ & Hf).
    rewrite Ha, Hd in Hf. eexists. exact Hf.
  - cbn [app map].
    change (run cfg w (PointerMove m0 :: map PointerMove (ms ++ [m])))
      with (run cfg (step cfg w (PointerMove m0)) (map PointerMove (ms ++ [m]))).
    destruct (move_spec cfg m0 Hinv) as (Hs & Hp & _).
    destruct (IH (step cfg w (PointerMove m0))) as (h & Hf).
    + now apply tracking_inv_step.
    + unfold alive in *. now rewrite Hp.
    + now rewrite Hs.
    + exists h. now rewrite Hf, Hs.
Qed.

(** ** The drag claims *)

(** Claim C1.  For every drag gesture, started by an accepted pointer-down
    [e0] on the rendered overlay of a reachable world: the anchor offset
    [dragOffset] becomes the pointer position minus the overlay position of
    that moment; it keeps that value through every later event of the
    gesture (any event but a further pointer-down); and every event that
    changes [position] during the gesture is an animation frame that sets it
    to the position of the latest pointer-move minus that anchor.
    Concretely: pointer-down at (50,50) with the overlay at (0,0) gives the
    anchor (50,50), and a pointer-move to (80,80) gives, once the frame has
    fired, the position (30,30). *)
Theorem C1_drag_anchor cfg pre e0 evs ev :
  let w := run cfg init pre in
  let anchor := minus e0 (position (state w)) in
  let w1 := step cfg w (PointerDown e0) in
  let w2 := run cfg w1 evs in
  rendered cfg w = true ->
  accepted e0 = true ->
  no_PointerDown (evs ++ [ev]) = true ->
  dragOffset (state w1) = anchor /\
  dragOffset (state w2) = anchor /\
  (position (state (step cfg w2 ev)) = position (state w2) \/
   (ev = AnimationFrame /\
    exists m, last_move None evs = Some m /\
              position (state (step cfg w2 ev)) = minus m anchor)) /\
  (let s0 := state (run enabled_with_key init [Mount]) in
   let s1 := state (run enabled_with_key init
                      [Mount; PointerDown (at_point 50 50)]) in
   let s2 := state (run enabled_with_key init
                      [Mount; PointerDown (at_point 50 50);
                       PointerMove (at_point 80 80); AnimationFrame]) in
   position s0 = mkPoint 0 0 /\
   dragOffset s1 = mkPoint 50 50 /\
   position s2 = mkPoint 30 30).
Proof.
  intros w anchor w1 w2 Hrend Hacc Hevs.
  assert (Hinv : tracking_inv w) by apply tracking_inv_reachable.
  destruct (down_spec cfg e0 Hinv Hrend Hacc) as (Hoff & _ & Hnil & _).
  fold w1 in Hoff, Hnil. fold anchor in Hoff.
  unfold no_PointerDown in Hevs. rewrite forallb_app in Hevs.
  apply andb_prop in Hevs as [Hevs Hev]. cbn in Hev.
  rewrite andb_true_r in Hev. apply negb_true_iff in Hev.
  assert (Hg1 : gesture anchor None w1).
  { split; [now apply tracking_inv_step|]. split; [exact Hoff|].
    intros h cb Hin. rewrite Hnil in Hin. destruct Hin. }
  assert (Hg2 : gesture anchor (last_move None evs) w2)
    by now apply gesture_run.
  split; [exact Hoff|]. split; [apply Hg2|].
  split; [now apply gesture_position|].
  vm_compute. repeat split.
Qed.

Lemma C1_drag_anchor_witness :
  let w := run enabled_with_key init [Mount] in
  let w1 := step enabled_with_key w (PointerDown (at_point 50 50)) in
  let w2 := run enabled_with_key w1 [PointerMove (at_point 80 80)] in
  dragOffset (state w2) = minus (at_point 50 50) (position (state w)) /\
  (position (state (step enabled_with_key w2 AnimationFrame))
   = position (state w2) \/
   (AnimationFrame = AnimationFrame /\
    exists m,
      last_move None [PointerMove (at_point 80 80)] = Some m /\
      position (state (step enabled_with_key w2 AnimationFrame))
      = minus m (minus (at_point 50 50) (position (state w))))).
Proof.
  intros w w1 w2.
  pose proof (@C1_drag_anchor enabled_with_key [Mount] (at_point 50 50)
                [PointerMove (at_point 80 80)] AnimationFrame
                eq_refl eq_refl eq_refl) as (_ & H2 & H3 & _).
  split; [exact H2 | exact H3].
Defined.

(** Claim C2.  While tracking, for every non-empty sequence of pointer-move
    events delivered between two frames: no position is applied while the
    events arrive; after the last one exactly one callback is queued, the
    one of the last event (each new one cancelled its predecessor); the next
    frame applies the position derived from the last event, and leaves
    nothing queued, so that the earlier positions are never applied. *)
Theorem C2_moves_coalesced cfg pre moves m :
  let w := run cfg init pre in
  let window := map PointerMove (moves ++ [m]) in
  let w' := run cfg w window in
  alive w = true ->
  isDragging (state w) = true ->
  (forall k, position (state (run cfg w (firstn k window)))
             = position (state w)) /\
  (exists h, frame_callbacks w' = [(h, mkFrame m (dragOffset (state w)))]) /\
  position (state (step cfg w' AnimationFrame))
  = minus m (dragOffset (state w)) /\
  frame_callbacks (step cfg w' AnimationFrame) = [].
Proof.
  intros w window w' Ha Hd.
  assert (Hinv : tracking_inv w) by apply tracking_inv_reachable.
  assert (Hinv' : tracking_inv w') by now apply tracking_inv_run.
  destruct (moves_pending cfg moves m Hinv Ha Hd) as (h & Hf).
  fold window in Hf. fold w' in Hf.
  destruct (frame_spec cfg Hinv') as (Hnil & Hpos).
  split; [|split; [|split]].
  - intros k. unfold window. rewrite firstn_map.
    now destruct (moves_state cfg (firstn k (moves ++ [m])) Hinv) as [-> _].
  - now exists h.
  - now rewrite Hpos, Hf.
  - exact Hnil.
Qed.

Lemma C2_moves_coalesced_witness :
  let w := run enabled_with_key init [Mount; PointerDown (at_point 50 50)] in
  let w' := run enabled_with_key w
              (map PointerMove
                 ([at_point 60 60; at_point 70 70] ++ [at_point 80 80])) in
  position (state (step enabled_with_key w' AnimationFrame))
  = minus (at_point 80 80) (dragOffset (state w)).
Proof.
  intros w w'.
  exact (proj1 (proj2 (proj2
    (@C2_moves_coalesced enabled_with_key
       [Mount; PointerDown (at_point 50 50)]
       [at_point 60 60; at_point 70 70] (at_point 80 80)
       eq_refl eq_refl)))).
Defined.

(** Claim C3.  After a pointer-up has been processed, in every reachable
    world: a mounted component is not tracking, the window listeners are
    detached, no frame callback is queued (the one scheduled during the
    gesture is cancelled), and [position] stays what it is through every
    later sequence of events without a new pointer-down, frames included. *)
Theorem C3_pointer_up_stops cfg pre e post :
  let w := run cfg init (pre ++ [PointerUp e]) in
  no_PointerDown post = true ->
  (alive w = true -> isDragging (state w) = false) /\
  window_listeners w = [] /\
  frame_callbacks w = [] /\
  position (state (run cfg w post)) = position (state w) /\
  position (state (step cfg (run cfg w post) AnimationFrame))
  = position (state w).
Proof.
  intros w Hpost. unfold w. rewrite run_snoc.
  set (w0 := run cfg init pre).
  assert (Hinv : tracking_inv w0) by apply tracking_inv_reachable.
  destruct (up_spec cfg e Hinv) as (Hnil & Hwl & Hd).
  assert (Hidle : idle (step cfg w0 (PointerUp e)))
    by (split; [now apply tracking_inv_step | exact Hd]).
  destruct (idle_run cfg post Hpost Hidle) as (Hidle' & Hpos).
  split; [|split; [exact Hwl | split; [exact Hnil | split; [exact Hpos|]]]].
  - intros Ha. apply Hd. unfold alive in Ha.
    destruct (phase (step cfg w0 (PointerUp e))); (discriminate || congruence).
  - destruct (@idle_step cfg _ AnimationFrame eq_refl Hidle') as (_ & Hpos').
    congruence.
Qed.

Lemma C3_pointer_up_stops_witness :
  let w := run enabled_with_key init
             ([Mount; PointerDown (at_point 50 50);
               PointerMove (at_point 80 80)] ++ [PointerUp (at_point 80 80)]) in
  frame_callbacks w = [] /\
  position (state (step enabled_with_key
                     (run enabled_with_key w [PointerMove (at_point 90 90)])
                     AnimationFrame))
  = position (state w).
Proof.
  intros w.
  pose proof (@C3_pointer_up_stops enabled_with_key
                [Mount; PointerDown (at_point 50 50);
                 PointerMove (at_point 80 80)]
                (at_point 80 80) [PointerMove (at_point 90 90)] eq_refl)
    as (_ & _ & H3 & _ & H5).
  split; [exact H3 | exact H5].
Defined.

(** ** The fetch lifecycle *)

Lemma fetch_view_exec c w :
  fine keeps_fetch c = true -> fetch_view (exec c w) = fetch_view w.
Proof.
  intros Hc. destruct c; try discriminate Hc; cbn [exec];
    try reflexivity; unfold update; destruct (phase w); reflexivity.
Qed.

Lemma fetch_view_commit w : fetch_view (commit w) = fetch_view w.
Proof.
  symmetry.
  apply (@commit_rel keeps_fetch (fun w w' => fetch_view w = fetch_view w'));
    try congruence; try reflexivity.
  intros c w0 Hc. symmetry. now apply fetch_view_exec.
Qed.

(** Only mounting and a settled fetch touch the fetch state. *)
Lemma fetch_view_step cfg w ev :
  is_fetch_event ev = false -> fetch_view (step cfg w ev) = fetch_view w.
Proof.
  intros Hev. symmetry.
  apply (@step_rel keeps_fetch (fun w w' => fetch_view w = fetch_view w'));
    try congruence; try reflexivity.
  - intros c w0 Hc. symmetry. now apply fetch_view_exec.
  - fine_event ev.
Qed.

(** The state after a list of calls. *)
Lemma state_exec_all cs w :
  state (exec_all cs w)
  = if alive w then fold_left (fun s c => apply_setter c s) cs (state w)
    else state w.
Proof.
  unfold alive. revert w. induction cs as [|c cs IH]; intros w.
  - cbn. now destruct (phase w).
  - change (exec_all (c :: cs) w) with (exec_all cs (exec c w)).
    rewrite IH, state_exec, phase_exec. unfold alive.
    destruct (phase w); rewrite ?andb_false_r, ?andb_true_r; try reflexivity.
    cbn [fold_left]. destruct (is_setter c) eqn:Es; [reflexivity|].
    now destruct c.
Qed.

Lemma no_fetch_exec_all cs w :
  forallb (fun c => match c with fetch _ => false | _ => true end) cs = true ->
  pending_fetches (exec_all cs w) = pending_fetches w /\
  requests (exec_all cs w) = requests w.
Proof.
  revert w. induction cs as [|c cs IH]; intros w H; [now split|].
  cbn [forallb] in H. apply andb_prop in H as [Hc Hcs].
  change (exec_all (c :: cs) w) with (exec_all cs (exec c w)).
  destruct (IH (exec c w) Hcs) as [-> ->].
  destruct c; try discriminate Hc; cbn [exec]; try (now split);
    unfold update; destruct (phase w); now split.
Qed.

(** The three shapes of the continuation of [fetchAllHighlights]. *)
Lemma resume_cases o :
  (exists m, fetchAllHighlights_resume o = catch_finally m) \/
  (exists m,
     fetchAllHighlights_resume o
     = console_log_null "获取到的数据:" :: catch_finally m) \/
  (exists h hs,
     fetchAllHighlights_resume o
     = [ console_log_data "获取到的数据:" (Some (h :: hs));
         setHighlights (h :: hs); setCurrentIndex 0; setLoading false ]) \/
  (exists d,
     fetchAllHighlights_resume o
     = [ console_log_data "获取到的数据:" d;
         setError (Some no_items); setLoading false ]).
Proof.
  destruct o as [m | r]; [left; now exists m|].
  unfold fetchAllHighlights_resume.
  destruct (negb (ok r)); [left; eexists; reflexivity|].
  destruct (_ || _); [left; eexists; reflexivity|].
  destruct (body r) as [m | m | [[|h hs]|]].
  - left. now exists m.
  - right. left. now exists m.
  - right. right. right. now eexists.
  - right. right. left. now exists h, hs.
  - right. right. right. now eexists.
Qed.

Lemma fetch_inv_init : fetch_inv init.
Proof.
  unfold fetch_inv. cbn. repeat split; try lia; try congruence.
Qed.

Lemma fetch_view_mount cfg w :
  fetch_view (mount cfg w)
  = fetch_view (exec_all (mount_effect cfg) (with_phase Alive w)).
Proof.
  unfold mount. rewrite fetch_view_commit.
  change (fetch_view (with_effect ?l ?x)) with (fetch_view x).
  set (l := closure (with_phase Alive w)).
  transitivity (fetch_view (exec_all (mount_effect cfg)
                              (exec_all route_effect (with_phase Alive w)))).
  - symmetry.
    apply (@exec_all_rel keeps_fetch
             (fun w w' => fetch_view w = fetch_view w'));
      try congruence; try reflexivity.
    + intros c w0 Hc. symmetry. now apply fetch_view_exec.
    + unfold drag_effect. now destruct (l_isDragging l).
  - unfold mount_effect, fetchAllHighlights.
    destruct (BLOG.READWISE_ENABLED cfg); [destruct (negb _)|]; reflexivity.
Qed.

Lemma fetch_inv_step cfg w ev : fetch_inv w -> fetch_inv (step cfg w ev).
Proof.
  intros Hinv. pose proof Hinv as (H1 & H2 & H3 & H4).
  destruct (is_fetch_event ev) eqn:Ef.
  - destruct ev; try discriminate Ef; cbn [step].
    + (* Mount *)
      destruct (phase w) eqn:Hp; try exact Hinv.
      destruct (H4 eq_refl) as (Hh & Hpf & Hrq).
      assert (Hph : phase (mount cfg w) = Alive).
      { pose proof (phase_step cfg w Mount) as E. cbn [step] in E.
        now rewrite Hp in E. }
      pose proof (fetch_view_mount cfg w) as Hv.
      unfold fetch_inv. rewrite Hph.
      unfold fetch_view in Hv.
      destruct w as [ph [mt hs ci vis ld er pos drg off] oid ref deps lst fr
                     stl wl rl fq nh rq pf con].
      cbn in Hh, Hpf, Hrq. subst hs pf rq.
      unfold mount_effect, fetchAllHighlights in Hv.
      destruct (BLOG.READWISE_ENABLED cfg); [destruct (negb _)|];
        cbn in Hv; injection Hv as -> -> -> -> ->;
        repeat split; cbn; try lia; try congruence.
    + (* FetchSettled *)
      destruct (pending_fetches w) as [|n] eqn:Hpf; [exact Hinv|].
      destruct (H2 ltac:(discriminate)) as (Her & Hn).
      injection Hn as ->.
      assert (Hhs : highlights (state w) = []).
      { destruct (highlights (state w)) eqn:E; [reflexivity|].
        destruct H1 as (_ & _ & Hc); [discriminate | discriminate Hc]. }
      set (w0 := with_pending_fetches 0 w).
      assert (Hnf : forallb (fun c => match c with fetch _ => false | _ => true end)
                      (fetchAllHighlights_resume o) = true).
      { destruct (resume_cases o)
        as [(m & ->) | [(m & ->) | [(h & hs & ->) | (d & ->)]]];
          reflexivity. }
      destruct (no_fetch_exec_all _ w0 Hnf) as (Hp' & Hr').
      pose proof (fetch_view_commit (exec_all (fetchAllHighlights_resume o) w0))
        as Hv.
      unfold fetch_view in Hv. injection Hv as Eh El Ee Ep Er.
      unfold fetch_inv. rewrite Eh, El, Ee, Ep, Er, Hp', Hr'.
      rewrite state_exec_all.
      assert (Hph : phase (commit (exec_all (fetchAllHighlights_resume o) w0))
                    = phase w)
        by (rewrite phase_commit, phase_exec_all; reflexivity).
      rewrite Hph. change (alive w0) with (alive w).
      change (state w0) with (state w). change (pending_fetches w0) with 0.
      change (requests w0) with (requests w).
      split; [|split; [intros Hc; congruence | split; [exact H3|]]].
      * destruct (alive w); [|now rewrite Hhs].
        destruct (resume_cases o)
        as [(m & ->) | [(m & ->) | [(h & hs & ->) | (d & ->)]]];
          cbn; try (now rewrite Hhs); intros _; now repeat split.
      * intros Hf. destruct (H4 Hf) as (_ & Hc & _). discriminate Hc.
  - pose proof (fetch_view_step cfg w ev Ef) as Hv.
    unfold fetch_view in Hv. injection Hv as Eh El Ee Ep Er.
    unfold fetch_inv. rewrite Eh, El, Ee, Ep, Er.
    split; [exact H1 | split; [exact H2 | split; [exact H3|]]].
    intros Hf. apply H4. rewrite phase_step in Hf.
    destruct ev, (phase w); (discriminate || reflexivity).
Qed.

Lemma fetch_inv_reachable cfg evs : fetch_inv (run cfg init evs).
Proof.
  assert (H : forall w, fetch_inv w -> fetch_inv (run cfg w evs)).
  { induction evs as [|ev evs IH]; intros w Hw; [exact Hw|].
    apply IH. now apply fetch_inv_step. }
  apply H, fetch_inv_init.
Qed.

(** ** Rounding does not move the index out of the array *)

Import Binary64.

Local Open Scope Q_scope.

Lemma denominator_half : Zpos denominator = (2 ^ 53 * half)%Z.
Proof. vm_compute. reflexivity. Qed.

Lemma half_pos : (0 < half)%Z.
Proof. vm_compute. reflexivity. Qed.

Lemma pow_half k : (0 <= k)%Z -> (2 ^ (k + 1021) = 2 ^ k * half)%Z.
Proof. intros Hk. unfold half. now rewrite Z.pow_add_r by lia. Qed.

(** A binary64 number below 1 is at most [1 - 2^-53]. *)
Lemma numerator_below_one N :
  numerator N -> (N < Zpos denominator)%Z ->
  (N <= Zpos denominator - half)%Z.
Proof.
  intros (M & s & HM & Hs & ->) Hlt. rewrite denominator_half in *.
  destruct (Z.le_gt_cases M 0) as [Hneg | Hpos].
  - assert (0 < 2 ^ s)%Z by (apply Z.pow_pos_nonneg; lia).
    pose proof half_pos. nia.
  - destruct (Z.le_gt_cases 1021 s) as [Hbig | Hsmall].
    + (* M * 2^s < 2^53 * 2^1021, 2^1021 divides 2^s *)
      replace s with ((s - 1021) + 1021)%Z in * by lia.
      rewrite pow_half in * by lia.
      set (c := (2 ^ (s - 1021))%Z) in *.
      assert (0 < c)%Z by (apply Z.pow_pos_nonneg; lia).
      pose proof half_pos.
      assert (M * c < 2 ^ 53)%Z by nia.
      nia.
    + assert (2 ^ s <= 2 ^ 1020)%Z by (apply Z.pow_le_mono_r; lia).
      assert (half = 2 * 2 ^ 1020)%Z by (vm_compute; reflexivity).
      assert (0 < 2 ^ s)%Z by (apply Z.pow_pos_nonneg; lia).
      assert (0 < 2 ^ 1020)%Z by (apply Z.pow_pos_nonneg; lia).
      set (a := (2 ^ s)%Z) in *. set (b := (2 ^ 1020)%Z) in *.
      set (e := (2 ^ 53)%Z) in *.
      assert (1 < e)%Z by (vm_compute; reflexivity).
      nia.
Qed.

Lemma numerator_zero : numerator 0.
Proof. exists 0%Z, 0%Z. repeat split; lia. Qed.

(** The binary64 number just below an integer [n < 2^53], scaled:
    a power of two [2^k] has [2^k - 2^(k-53)] below it, another integer
    of the binade has [n - 2^(k-52)]. *)
Lemma numerator_below_power k :
  (0 <= k <= 52)%Z ->
  numerator (2 ^ k * Zpos denominator - 2 ^ k * half).
Proof.
  intros Hk. exists (2 ^ 53 - 1)%Z, (k + 1021)%Z.
  split; [|split; [lia|]].
  - assert (0 < 2 ^ 53)%Z by (vm_compute; reflexivity). lia.
  - rewrite denominator_half, pow_half by lia. ring.
Qed.

Lemma numerator_below_integer n k :
  (0 <= k <= 52)%Z -> (2 ^ k <= n < 2 ^ (k + 1))%Z ->
  numerator (n * Zpos denominator - 2 * (2 ^ k * half)).
Proof.
  intros Hk Hn. exists (n * 2 ^ (52 - k) - 1)%Z, (k + 1022)%Z.
  assert (H53 : (2 ^ (k + 1) * 2 ^ (52 - k) = 2 ^ 53)%Z).
  { rewrite <- Z.pow_add_r by lia. f_equal. lia. }
  assert (Hc : (0 < 2 ^ (52 - k))%Z) by (apply Z.pow_pos_nonneg; lia).
  assert (Hk0 : (0 < 2 ^ k)%Z) by (apply Z.pow_pos_nonneg; lia).
  split; [|split; [lia|]].
  - set (c := (2 ^ (52 - k))%Z) in *. set (e := (2 ^ 53)%Z) in *.
    set (b := (2 ^ (k + 1))%Z) in *. set (a := (2 ^ k)%Z) in *. nia.
  - replace (k + 1022)%Z with ((k + 1) + 1021)%Z by lia.
    rewrite pow_half, denominator_half by lia.
    rewrite <- H53. rewrite (Z.pow_add_r 2 k 1) by lia.
    change (2 ^ 1)%Z with 2%Z. ring.
Qed.

(** The integer core: a nearest numerator of [A * n / 2^1074], for
    [A / 2^1074 <= 1 - 2^-53] and an integer [n < 2^53], is below [n]. *)
Lemma nearest_numerator_bounds (A n P : Z) :
  (0 <= A <= Zpos denominator - half)%Z ->
  (0 < n < 2 ^ 53)%Z ->
  (forall F, numerator F -> (Z.abs (P - A * n) <= Z.abs (F - A * n))%Z) ->
  (0 <= P < n * Zpos denominator)%Z.
Proof.
  intros HA Hn Hnear.
  pose proof half_pos as Hh.
  set (T := Zpos denominator) in *.
  assert (HT : (half < T)%Z).
  { unfold T. rewrite denominator_half.
    assert (1 < 2 ^ 53)%Z by (vm_compute; reflexivity). nia. }
  assert (HX : (0 <= A * n)%Z) by nia.
  split.
  - pose proof (Hnear 0%Z numerator_zero). lia.
  - set (k := Z.log2 n).
    assert (Hk : (2 ^ k <= n < 2 ^ Z.succ k)%Z) by (apply Z.log2_spec; lia).
    assert (Hk0 : (0 <= k)%Z) by apply Z.log2_nonneg.
    assert (Hk52 : (k <= 52)%Z).
    { assert (k < 53)%Z; [|lia]. apply Z.log2_lt_pow2; lia. }
    replace (Z.succ k) with (k + 1)%Z in Hk by lia.
    assert (Hp : (0 < 2 ^ k)%Z) by (apply Z.pow_pos_nonneg; lia).
    set (U := (2 ^ k * half)%Z).
    assert (HU : (0 < U)%Z) by (unfold U; nia).
    assert (Hle : (A * n <= n * T - n * half)%Z) by nia.
    destruct (Z.eq_dec n (2 ^ k)) as [Heq | Hneq].
    + pose proof (Hnear _ (@numerator_below_power k ltac:(lia))) as Hf.
      fold T in Hf. fold U in Hf. rewrite <- Heq in Hf at 1.
      assert (n * half = U)%Z by (unfold U; now rewrite Heq).
      lia.
    + pose proof (Hnear _ (@numerator_below_integer n k ltac:(lia) Hk)) as Hf.
      fold T in Hf. fold U in Hf.
      assert (U < n * half)%Z by (unfold U; nia).
      lia.
Qed.

Lemma Qabs_diff a b d : Qabs ((a # d) - (b # d)) == (Z.abs (a - b) # d).
Proof.
  assert (H : (a # d) - (b # d) == (a - b) # d).
  { unfold Qeq, Qminus, Qplus, Qopp. cbn. nia. }
  rewrite H. reflexivity.
Qed.

Lemma Qle_same_den a b d : (a # d) <= (b # d) <-> (a <= b)%Z.
Proof. unfold Qle. cbn. nia. Qed.

Lemma Qle_zero_num a d : 0 <= (a # d) <-> (0 <= a)%Z.
Proof. unfold Qle. cbn. nia. Qed.

Lemma Qlt_num_one a d : (a # d) < 1 <-> (a < Zpos d)%Z.
Proof. unfold Qlt. cbn. nia. Qed.

(** [Math.floor] of the rounded product of a binary64 number of [0,1) and
    an array length is an index of the array, whichever nearest binary64
    number the multiplication returns. *)
Lemma floor_rounded_bounds (r : Q) (n : nat) (p : Q) :
  binary64 r -> 0 <= r -> r < 1 ->
  n <> 0%nat -> (Z.of_nat n < 2 ^ 53)%Z ->
  nearest (r * inject_Z (Z.of_nat n)) p ->
  (0 <= Qfloor p < Z.of_nat n)%Z.
Proof.
  intros (A & HA & Hr) H0 H1 Hn0 Hn ((P & HP & Hp) & Hnear).
  set (d := denominator) in *. set (m := Z.of_nat n) in *.
  assert (Hx : r * inject_Z m == (A * m) # d).
  { rewrite Hr. unfold Qeq, Qmult, inject_Z. cbn. nia. }
  rewrite Hr in H0, H1.
  apply -> Qle_zero_num in H0. apply -> Qlt_num_one in H1.
  assert (Hbound : (0 <= P < m * Zpos d)%Z).
  { apply (@nearest_numerator_bounds A m P).
    - split; [exact H0|]. now apply numerator_below_one.
    - unfold m. lia.
    - intros F HF.
      assert (Hb : binary64 (F # d)) by (exists F; split; [exact HF | reflexivity]).
      specialize (Hnear _ Hb). rewrite Hp, Hx, !Qabs_diff in Hnear.
      now apply Qle_same_den in Hnear. }
  rewrite (Qfloor_comp _ _ Hp). cbn [Qfloor].
  split.
  - apply Z.div_pos; lia.
  - apply Z.div_lt_upper_bound; lia.
Qed.

Local Close Scope Q_scope.

(** Every index the code can select, the floor of a rounded product, is
    the index [JS.floor_mul] gives for some outcome of [0, 1). *)
Lemma rounded_index_selected (r : Q) (n : nat) (p : Q) :
  binary64 r -> (0 <= r)%Q -> (r < 1)%Q ->
  n <> 0 -> (Z.of_nat n < 2 ^ 53)%Z ->
  nearest (r * inject_Z (Z.of_nat n))%Q p ->
  exists r' : Q,
    (0 <= r')%Q /\ (r' < 1)%Q /\ JS.floor_mul r' n = Qfloor p.
Proof.
  intros Hb H0 H1 Hn Hlt Hp.
  pose proof (@floor_rounded_bounds r n p Hb H0 H1 Hn Hlt Hp) as Hk.
  assert (Hd : Zpos (Pos.of_nat n) = Z.of_nat n).
  { rewrite <- (Nat2Pos.id n Hn) at 2. now rewrite positive_nat_Z. }
  exists (Qfloor p # Pos.of_nat n)%Q. split; [|split].
  - apply Qle_zero_num. lia.
  - apply Qlt_num_one. lia.
  - unfold JS.floor_mul.
    assert (E : ((Qfloor p # Pos.of_nat n) * inject_Z (Z.of_nat n)
                 == inject_Z (Qfloor p))%Q).
    { unfold Qeq, Qmult, inject_Z. cbn. rewrite Pos.mul_1_r, Hd. lia. }
    rewrite (Qfloor_comp _ _ E). apply Qfloor_Z.
Qed.

(** ** The fetch claims *)

Lemma state_commit w : state (commit w) = state w.
Proof.
  symmetry.
  apply (@commit_rel (fun c => negb (is_setter c))
           (fun w w' => state w = state w'));
    try congruence; try reflexivity.
  intros c w0 Hc. rewrite state_exec.
  destruct (is_setter c) eqn:Es; [|reflexivity]. now destruct c.
Qed.

(** [Math.floor(Math.random() * n)] is an index of an array of length [n]. *)
Lemma floor_mul_bounds (r : Q) (n : nat) :
  (0 <= r)%Q -> (r < 1)%Q -> n <> 0 ->
  (0 <= JS.floor_mul r n < Z.of_nat n)%Z.
Proof.
  intros H0 H1 Hn. unfold JS.floor_mul.
  set (q := inject_Z (Z.of_nat n)).
  assert (Hq : (0 < q)%Q).
  { unfold q. change 0%Q with (inject_Z 0). rewrite <- Zlt_Qlt. lia. }
  split.
  - change 0%Z with (Qfloor 0). apply Qfloor_resp_le.
    apply Qmult_le_0_compat; [exact H0 | now apply Qlt_le_weak].
  - rewrite Zlt_Qlt. fold q.
    apply Qle_lt_trans with (r * q)%Q; [apply Qfloor_le|].
    rewrite <- (Qmult_1_l q) at 2.
    now apply Qmult_lt_compat_r.
Qed.

Lemma ready_of_highlights w :
  fetch_inv w -> highlights (state w) <> [] -> is_ready (state w) = true.
Proof.
  intros (H1 & _) Hh. destruct (H1 Hh) as (Hl & He & _).
  unfold is_ready. rewrite Hl, He.
  destruct (highlights (state w)); [congruence | reflexivity].
Qed.

(** Claim C4.  In every reachable world: when the component is mounted and
    the collection is not empty, the index selected by a refresh (for an
    outcome of [Math.random()] in [0,1)) is an index of the collection,
    which the refresh leaves as it is; and when the component is not ready
    (before mount, loading, failed, or with an empty collection), a refresh
    leaves the whole world unchanged, whether run as a function or
    delivered as the click event.  The bounds do not rest on the product
    being exact: they hold for the floor of every binary64 number nearest
    to the product of a binary64 outcome and the length. *)
Theorem C4_reselect cfg pre random :
  let w := run cfg init pre in
  let w' := reselect random w in
  let n := List.length (highlights (state w)) in
  (0 <= random)%Q -> (random < 1)%Q ->
  (alive w = true -> highlights (state w) <> [] ->
   highlights (state w') = highlights (state w) /\
   (0 <= currentIndex (state w')
    < Z.of_nat (List.length (highlights (state w'))))%Z) /\
  (rendered cfg w = true -> step cfg w (ClickRefresh random) = w') /\
  (is_ready (state w) = false ->
   w' = w /\ step cfg w (ClickRefresh random) = w) /\
  (forall p,
     highlights (state w) <> [] ->
     Binary64.binary64 random -> (Z.of_nat n < 2 ^ 53)%Z ->
     Binary64.nearest (random * inject_Z (Z.of_nat n))%Q p ->
     (0 <= Qfloor p < Z.of_nat n)%Z).
Proof.
  intros w w' n H0 H1. unfold w', reselect. split; [|split; [|split]].
  - intros Ha Hh. rewrite state_commit, state_exec_all, Ha.
    unfold refreshHighlight.
    destruct (highlights (state w)) as [|h hs] eqn:E; [congruence|].
    cbn. rewrite E. split; [reflexivity|].
    apply (floor_mul_bounds (n := S (List.length hs))); auto.
  - intros Hrend. cbn [step]. now rewrite Hrend.
  - intros Hready.
    assert (Hh : highlights (state w) = []).
    { destruct (highlights (state w)) eqn:E; [reflexivity|].
      rewrite ready_of_highlights in Hready;
        [discriminate | apply fetch_inv_reachable | congruence]. }
    assert (Hw : commit (exec_all (refreshHighlight (state w) random) w) = w).
    { unfold refreshHighlight. rewrite Hh.
      apply tracking_commit_id, tracking_inv_reachable. }
    split; [exact Hw|]. cbn [step]. unfold reselect. rewrite Hw.
    now destruct (rendered cfg w).
  - intros p Hh Hb Hn Hp.
    apply (@floor_rounded_bounds random n p); auto.
    unfold n. destruct (highlights (state w)); [congruence | discriminate].
Qed.

Lemma binary64_three_quarters : Binary64.binary64 (3 # 4).
Proof.
  exists (3 * 2 ^ 1072)%Z. split.
  - exists 3%Z, 1072%Z. repeat split; try lia; vm_compute; congruence.
  - vm_compute. reflexivity.
Qed.

Lemma nearest_three_halves :
  Binary64.nearest ((3 # 4) * inject_Z (Z.of_nat 2))%Q (3 # 2).
Proof.
  split.
  - exists (3 * 2 ^ 1073)%Z. split.
    + exists 3%Z, 1073%Z. repeat split; try lia; vm_compute; congruence.
    + vm_compute. reflexivity.
  - intros f _.
    assert (E : ((3 # 2) - (3 # 4) * inject_Z (Z.of_nat 2) == 0)%Q)
      by (vm_compute; reflexivity).
    rewrite E. apply Qabs_nonneg.
Qed.

Lemma C4_reselect_witness :
  let w := run enabled_with_key init
             [Mount; FetchSettled (json_response (Some [item "A"; item "B"]))] in
  let w' := step enabled_with_key w (ClickRefresh (3 # 4)) in
  (0 <= currentIndex (state w') < 2)%Z /\
  step enabled_with_key (run enabled_with_key init [Mount])
    (ClickRefresh (3 # 4))
  = run enabled_with_key init [Mount] /\
  (0 <= Qfloor (3 # 2)%Q < 2)%Z.
Proof.
  intros w w'.
  pose proof (@C4_reselect enabled_with_key
                [Mount; FetchSettled (json_response (Some [item "A"; item "B"]))]
                (3 # 4) ltac:(discriminate) ltac:(reflexivity))
    as (H & Hstep & _ & Hround).
  destruct (H eq_refl ltac:(discriminate)) as [_ Hi].
  unfold w', w. rewrite (Hstep eq_refl). split; [exact Hi|]. split.
  - exact (proj2 (proj1 (proj2 (proj2
             (@C4_reselect enabled_with_key [Mount] (3 # 4)
                ltac:(discriminate) ltac:(reflexivity)))) eq_refl)).
  - exact (Hround (3 # 2)%Q ltac:(discriminate) binary64_three_quarters
             ltac:(reflexivity) nearest_three_halves).
Defined.

(** Once mounted with nothing outstanding, the fetch state stays. *)
Lemma settled_run cfg evs :
  forall w,
    phase w <> Fresh -> pending_fetches w = 0 ->
    fetch_view (run cfg w evs) = fetch_view w.
Proof.
  induction evs as [|ev evs IH]; intros w Hp Hpf; [reflexivity|].
  change (run cfg w (ev :: evs)) with (run cfg (step cfg w ev) evs).
  assert (Hv : fetch_view (step cfg w ev) = fetch_view w).
  { destruct (is_fetch_event ev) eqn:Ef; [|now apply fetch_view_step].
    destruct ev; try discriminate Ef; cbn [step].
    - destruct (phase w); congruence.
    - now rewrite Hpf. }
  rewrite IH, Hv; [reflexivity | |].
  - rewrite phase_step. destruct ev, (phase w); congruence.
  - unfold fetch_view in Hv. injection Hv as _ _ _ Hpf' _. congruence.
Qed.

(** Claim C5.  With the feature enabled and no API key configured (absent
    or empty), mounting puts the component in the failed state with the
    missing-key message and [loading = false], without a request; and this
    holds after every further sequence of events: no request is ever made,
    no fetch is ever outstanding. *)
Theorem C5_missing_key cfg evs :
  let w := run cfg init (Mount :: evs) in
  BLOG.READWISE_ENABLED cfg = true ->
  JS.truthy (BLOG.READWISE_API_KEY cfg) = false ->
  error (state w) = Some missing_key /\
  loading (state w) = false /\
  requests w = [] /\
  pending_fetches w = 0.
Proof.
  intros w Hen Hkey. unfold w.
  change (run cfg init (Mount :: evs))
    with (run cfg (step cfg init Mount) evs).
  assert (Hv : fetch_view (step cfg init Mount)
               = ([], false, Some missing_key, 0, [])).
  { cbn [step phase init]. rewrite fetch_view_mount.
    unfold mount_effect, fetchAllHighlights. now rewrite Hen, Hkey. }
  assert (Hp : phase (step cfg init Mount) <> Fresh)
    by (rewrite phase_step; discriminate).
  revert Hv Hp. generalize (step cfg init Mount) as w1. intros w1 Hv Hp.
  assert (Hpf : pending_fetches w1 = 0)
    by (change (snd (fst (fetch_view w1)) = 0); now rewrite Hv).
  pose proof (settled_run cfg evs w1 Hp Hpf) as Hs.
  rewrite Hv in Hs. revert Hs. generalize (run cfg w1 evs) as w2.
  intros w2 Hs.
  split; [change (snd (fst (fst (fetch_view w2))) = Some missing_key);
          now rewrite Hs|].
  split; [change (snd (fst (fst (fst (fetch_view w2)))) = false);
          now rewrite Hs|].
  split; [change (snd (fetch_view w2) = []); now rewrite Hs|].
  change (snd (fst (fetch_view w2)) = 0); now rewrite Hs.
Qed.

Lemma C5_missing_key_witness :
  let w := run enabled_without_key init (Mount :: [RouteChangeStart]) in
  error (state w) = Some missing_key /\ requests w = [].
Proof.
  intros w.
  pose proof (@C5_missing_key enabled_without_key [RouteChangeStart]
                eq_refl eq_refl) as (H1 & _ & H3 & _).
  split; [exact H1 | exact H3].
Defined.

(** Claim C6, as the code has it.  On a mounted component with the fetch
    outstanding, when the fetch resolves with a success status and a JSON
    content type and the body parses:
    - to a value other than [null] whose [highlights] is absent or empty,
      the continuation calls [setError] with the no-items message and
      [setLoading(false)] and no other setter: the component is in the
      failed state with that message, [loading] is false, and the stored
      collection is still empty, [setHighlights] not being called; the
      view shows the message and neither spinner nor quote;
    - to [null], reading [data.highlights] throws: the payload is logged,
      then the failure, and the continuation calls [setError] with the
      message of the TypeError, not with the no-items message, and
      [setLoading(false)]; the collection is still empty. *)
Theorem C6_empty_payload cfg pre r :
  let w := run cfg init pre in
  let w' := step cfg w (FetchSettled (Resolved r)) in
  alive w = true ->
  pending_fetches w <> 0 ->
  ok r = true ->
  JS.truthy (content_type r) = true ->
  JS.includes (JS.template (content_type r)) "application/json" = true ->
  (forall hs,
     body r = BodyData hs ->
     hs = None \/ hs = Some [] ->
     setters (fetchAllHighlights_resume (Resolved r))
     = [setError (Some no_items); setLoading false] /\
     error (state w') = Some no_items /\
     loading (state w') = false /\
     highlights (state w) = [] /\
     highlights (state w') = [] /\
     forall v, render cfg (state w') = Some v ->
               v_error v = Some no_items /\ v_spinner v = false /\
               v_quote v = None) /\
  (forall m,
     body r = BodyNull m ->
     setters (fetchAllHighlights_resume (Resolved r))
     = [setError (Some m); setLoading false] /\
     logs (fetchAllHighlights_resume (Resolved r))
     = [console_log_null "获取到的数据:";
        console_error "获取 Readwise 数据失败:" m] /\
     error (state w') = Some m /\
     loading (state w') = false /\
     highlights (state w) = [] /\
     highlights (state w') = []).
Proof.
  intros w w' Ha Hpf Hok Hct Hinc.
  assert (Hh : highlights (state w) = []).
  { destruct (fetch_inv_reachable cfg pre) as (H1 & _). fold w in H1.
    destruct (highlights (state w)) eqn:E; [reflexivity|].
    destruct H1 as (_ & _ & Hc); congruence. }
  assert (Hs : state w'
               = fold_left (fun s c => apply_setter c s)
                   (fetchAllHighlights_resume (Resolved r)) (state w)).
  { unfold w'. cbn [step]. destruct (pending_fetches w) as [|n]; [congruence|].
    rewrite state_commit, state_exec_all.
    change (alive (with_pending_fetches n w)) with (alive w).
    now rewrite Ha. }
  split.
  - intros hs Hbody Hhs.
    assert (Hres : fetchAllHighlights_resume (Resolved r)
                   = [ console_log_data "获取到的数据:" hs;
                       setError (Some no_items); setLoading false ]).
    { unfold fetchAllHighlights_resume. rewrite Hok, Hct, Hinc, Hbody.
      now destruct Hhs as [-> | ->]. }
    rewrite Hs, Hres. cbn. repeat split; try exact Hh.
    + unfold render in H. cbn in H. destruct (_ || _); [discriminate|].
      now injection H as <-.
    + unfold render in H. cbn in H. destruct (_ || _); [discriminate|].
      now injection H as <-.
    + unfold render in H. cbn in H. destruct (_ || _); [discriminate|].
      now injection H as <-.
  - intros m Hbody.
    assert (Hres : fetchAllHighlights_resume (Resolved r)
                   = console_log_null "获取到的数据:" :: catch_finally m).
    { unfold fetchAllHighlights_resume. now rewrite Hok, Hct, Hinc, Hbody. }
    rewrite Hs, Hres. cbn. repeat split; exact Hh.
Qed.

Lemma C6_empty_payload_witness :
  let w := run enabled_with_key init [Mount] in
  let w' := step enabled_with_key w (FetchSettled (json_response (Some []))) in
  setters (fetchAllHighlights_resume (json_response (Some [])))
  = [setError (Some no_items); setLoading false] /\
  error (state w') = Some no_items /\ highlights (state w') = [] /\
  forall v, render enabled_with_key (state w') = Some v ->
            v_error v = Some no_items /\ v_spinner v = false /\
            v_quote v = None.
Proof.
  intros w w'.
  pose proof (proj1 (@C6_empty_payload enabled_with_key [Mount]
                       {| status := 200;
                          content_type := Some "application/json";
                          body := BodyData (Some []) |}
                       eq_refl ltac:(discriminate) eq_refl eq_refl eq_refl)
                (Some []) eq_refl (or_intror eq_refl))
    as (H0 & H1 & _ & _ & H4 & H5).
  split; [exact H0 | split; [exact H1 | split; [exact H4 | exact H5]]].
Defined.

(** Claim C6, as stated, fails on a body that parses to [null]: the parse
    succeeds and there is no list of highlights, yet the failure carries
    the message of the TypeError thrown at [data.highlights] (here the one
    of V8), not the no-items message. *)
Lemma C6_counterexample :
  let w := run enabled_with_key init [Mount] in
  let type_error := "Cannot read properties of null (reading 'highlights')" in
  let r := {| status := 200;
              content_type := Some "application/json";
              body := BodyNull type_error |} in
  let w' := step enabled_with_key w (FetchSettled (Resolved r)) in
  alive w = true /\ pending_fetches w = 1 /\
  parsed_highlights (body r) = Some None /\
  error (state w') = Some type_error /\
  console w'
  = (console w
     ++ [console_log_null "获取到的数据:";
         console_error "获取 Readwise 数据失败:" type_error])%list /\
  ~ empty_payload_reports_no_items enabled_with_key w r.
Proof.
  cbv zeta.
  split; [vm_compute; reflexivity|]. split; [vm_compute; reflexivity|].
  split; [reflexivity|]. split; [vm_compute; reflexivity|].
  split; [vm_compute; reflexivity|].
  intros H. unfold empty_payload_reports_no_items in H.
  assert (Ha : alive (run enabled_with_key init [Mount]) = true)
    by (vm_compute; reflexivity).
  assert (Hf : pending_fetches (run enabled_with_key init [Mount]) <> 0)
    by (vm_compute; discriminate).
  destruct (H Ha Hf eq_refl eq_refl eq_refl (or_introl eq_refl)) as (Hc & _).
  vm_compute in Hc. discriminate Hc.
Qed.

(** ** Visibility *)

Lemma isVisible_run cfg evs :
  forall w,
    isVisible (state w) = false -> isVisible (state (run cfg w evs)) = false.
Proof.
  induction evs as [|ev evs IH]; intros w H; [exact H|].
  change (run cfg w (ev :: evs)) with (run cfg (step cfg w ev) evs).
  apply IH. now apply isVisible_step.
Qed.

Lemma render_hidden cfg s :
  mounted s = false \/ BLOG.READWISE_ENABLED cfg = false \/
  isVisible s = false ->
  render cfg s = None.
Proof.
  unfold render. intros [-> | [-> | ->]]; cbn;
    rewrite ?orb_true_r; reflexivity.
Qed.

(** Claim C7.  Visibility only goes from true to false within one
    component instance: [isVisible] starts true; a click on the close
    button of the rendered overlay and a navigation-start signal to a
    mounted component set it to false; from any world where it is false,
    it is false after every sequence of events, and the component is not
    rendered; and the component renders nothing whenever it is not mounted,
    the feature is disabled or [isVisible] is false. *)
Theorem C7_visibility cfg :
  isVisible (state init) = true /\
  (forall pre,
     let w := run cfg init pre in
     rendered cfg w = true ->
     isVisible (state (step cfg w ClickClose)) = false) /\
  (forall pre,
     let w := run cfg init pre in
     alive w = true ->
     isVisible (state (step cfg w RouteChangeStart)) = false) /\
  (forall w evs,
     isVisible (state w) = false ->
     isVisible (state (run cfg w evs)) = false /\
     render cfg (state (run cfg w evs)) = None /\
     rendered cfg (run cfg w evs) = false) /\
  (forall s,
     mounted s = false \/ BLOG.READWISE_ENABLED cfg = false \/
     isVisible s = false ->
     render cfg s = None) /\
  (forall w, alive w = false -> rendered cfg w = false).
Proof.
  split; [reflexivity|]. split; [|split; [|split; [|split]]].
  - intros pre w Hrend. cbn [step]. rewrite Hrend, state_commit, state_exec_all.
    unfold alive. now rewrite (rendered_alive cfg w Hrend).
  - intros pre w Ha. cbn [step].
    destruct (tracking_inv_reachable cfg pre) as (_ & _ & _ & He).
    fold w in He. unfold effects_inv in He. unfold alive in Ha.
    destruct (phase w) eqn:Hp; try discriminate Ha.
    destruct He as (_ & _ & _ & _ & ->).
    rewrite state_commit, state_exec_all. unfold alive. now rewrite Hp.
  - intros w evs H. pose proof (isVisible_run cfg evs w H) as Hv.
    assert (Hr : render cfg (state (run cfg w evs)) = None)
      by (apply render_hidden; auto).
    split; [exact Hv | split; [exact Hr|]].
    unfold rendered. rewrite Hr. now destruct (phase _).
  - apply render_hidden.
  - intros w Ha. unfold rendered. unfold alive in Ha.
    now destruct (phase w).
Qed.

Lemma C7_visibility_witness :
  let w := step enabled_with_key (run enabled_with_key init [Mount])
             ClickClose in
  let w' := run enabled_with_key w
              [RouteChangeStart; PointerDown (at_point 1 1); AnimationFrame;
               FetchSettled (json_response (Some [item "A"]))] in
  isVisible (state w) = false /\
  isVisible (state w') = false /\
  render enabled_with_key (state w') = None.
Proof.
  intros w w'.
  pose proof (C7_visibility enabled_with_key) as (_ & Hclose & _ & Hmono & _).
  pose proof (Hclose [Mount] eq_refl) as Hw.
  split; [exact Hw|].
  destruct (Hmono w [RouteChangeStart; PointerDown (at_point 1 1);
                     AnimationFrame;
                     FetchSettled (json_response (Some [item "A"]))] Hw)
    as (H1 & H2 & _).
  split; [exact H1 | exact H2].
Defined.

(** ** Teardown and the outstanding fetch *)

Lemma stale_exec_all cs w :
  phase w <> Alive ->
  stale_updates (exec_all cs w) = (stale_updates w ++ setters cs)%list /\
  console (exec_all cs w) = (console w ++ logs cs)%list.
Proof.
  revert w. induction cs as [|c cs IH]; intros w Hp.
  - cbn. now rewrite !app_nil_r.
  - change (exec_all (c :: cs) w) with (exec_all cs (exec c w)).
    destruct (IH (exec c w)) as [-> ->]; [now rewrite phase_exec|].
    unfold setters, logs. cbn [filter].
    destruct c; cbn [exec is_setter is_console]; rewrite ?app_nil_r;
      try (split; reflexivity);
      try (unfold update; destruct (phase w); [| congruence |];
           cbn; now rewrite <- app_assoc);
      cbn; now rewrite <- app_assoc.
Qed.

(** Claim C8, as the code has it.  The continuation of [fetchAllHighlights]
    has no liveness check.  When the fetch settles after the component was
    unmounted, the continuation still runs in full: it writes the same
    console output and calls the same setters as on a mounted component,
    ending with [setLoading(false)].  React ignores state updates of an
    unmounted component, so the hook state is unchanged and nothing is
    rendered. *)
Theorem C8_stale_response cfg pre o :
  let w := run cfg init (pre ++ [Unmount]) in
  let w' := step cfg w (FetchSettled o) in
  pending_fetches w <> 0 ->
  state w' = state w /\
  rendered cfg w' = false /\
  stale_updates w'
  = (stale_updates w ++ setters (fetchAllHighlights_resume o))%list /\
  console w' = (console w ++ logs (fetchAllHighlights_resume o))%list /\
  (exists cs,
     setters (fetchAllHighlights_resume o) = (cs ++ [setLoading false])%list) /\
  logs (fetchAllHighlights_resume o) <> [].
Proof.
  intros w w' Hpf.
  assert (Hp : phase w <> Alive).
  { unfold w. rewrite run_snoc, phase_step.
    destruct (phase (run cfg init pre)); discriminate. }
  unfold w'. cbn [step]. destruct (pending_fetches w) as [|n]; [congruence|].
  set (w0 := with_pending_fetches n w).
  assert (Hp0 : phase (exec_all (fetchAllHighlights_resume o) w0) <> Alive)
    by now rewrite phase_exec_all.
  rewrite (@commit_not_alive _ Hp0).
  destruct (@stale_exec_all (fetchAllHighlights_resume o) w0 Hp) as [Hs Hc].
  split; [|split; [|split; [exact Hs | split; [exact Hc|]]]].
  - rewrite state_exec_all. unfold alive. change (phase w0) with (phase w).
    now destruct (phase w).
  - unfold rendered. rewrite phase_exec_all. change (phase w0) with (phase w).
    now destruct (phase w).
  - destruct (resume_cases o)
        as [(m & ->) | [(m & ->) | [(h & hs & ->) | (d & ->)]]];
      (split; [|discriminate]).
    + now exists [setError (Some m)].
    + now exists [setError (Some m)].
    + now exists [setHighlights (h :: hs); setCurrentIndex 0].
    + now exists [setError (Some no_items)].
Qed.

Lemma C8_stale_response_witness :
  let w := run enabled_with_key init ([Mount] ++ [Unmount]) in
  let o := json_response (Some [item "A"]) in
  let w' := step enabled_with_key w (FetchSettled o) in
  state w' = state w /\
  stale_updates w'
  = (stale_updates w ++ setters (fetchAllHighlights_resume o))%list.
Proof.
  intros w o w'.
  pose proof (@C8_stale_response enabled_with_key [Mount] o
                ltac:(discriminate)) as (H1 & _ & H3 & _).
  split; [exact H1 | exact H3].
Defined.

(** Claim C8, as stated, fails: after [Mount; Unmount] with the fetch
    outstanding, the response is not discarded.  A response that carries
    one item is logged, and [setHighlights], [setCurrentIndex] and
    [setLoading] are called on the unmounted instance; a rejected fetch is
    logged with [console.error], and [setError] and [setLoading] are
    called. *)
Lemma C8_counterexample :
  let w := run enabled_with_key init [Mount; Unmount] in
  let o := json_response (Some [item "A"]) in
  let w1 := step enabled_with_key w (FetchSettled o) in
  let w2 := step enabled_with_key w (FetchSettled (Rejected "Failed to fetch")) in
  phase w = Dead /\ pending_fetches w = 1 /\
  stale_updates w = [] /\
  stale_updates w1
  = [setHighlights [item "A"]; setCurrentIndex 0; setLoading false] /\
  console w1
  = (console w ++ [console_log_data "获取到的数据:" (Some [item "A"])])%list /\
  stale_updates w2
  = [setError (Some "Failed to fetch"); setLoading false] /\
  console w2
  = (console w
     ++ [console_error "获取 Readwise 数据失败:" "Failed to fetch"])%list /\
  ~ stale_response_discarded enabled_with_key w o.
Proof.
  cbv zeta.
  split; [vm_compute; reflexivity|]. split; [vm_compute; reflexivity|].
  split; [vm_compute; reflexivity|]. split; [vm_compute; reflexivity|].
  split; [vm_compute; reflexivity|]. split; [vm_compute; reflexivity|].
  split; [vm_compute; reflexivity|].
  intros H. unfold stale_response_discarded in H.
  assert (Hp : phase (run enabled_with_key init [Mount; Unmount]) = Dead)
    by (vm_compute; reflexivity).
  assert (Hf : pending_fetches (run enabled_with_key init [Mount; Unmount])
               <> 0) by (vm_compute; discriminate).
  destruct (H Hp Hf) as (_ & Hc & _).
  vm_compute in Hc. discriminate Hc.
Qed.

(** ** One fetch per instance *)

(** Claim C9, as the code has it.  A component instance makes at most one
    request and has at most one fetch outstanding, because
    [fetchAllHighlights] is called by the mount effect only, once.  The
    routine itself has no in-flight guard: with an API key configured,
    every call makes a request and adds an outstanding fetch, whatever is
    outstanding already. *)
Theorem C9_one_fetch_per_instance cfg pre :
  let w := run cfg init pre in
  List.length (requests w) <= 1 /\
  pending_fetches w <= 1 /\
  forall w0,
    JS.truthy (BLOG.READWISE_API_KEY cfg) = true ->
    requests (exec_all (fetchAllHighlights cfg) w0)
    = (requests w0 ++ [review_request cfg])%list /\
    pending_fetches (exec_all (fetchAllHighlights cfg) w0)
    = S (pending_fetches w0).
Proof.
  intros w. destruct (fetch_inv_reachable cfg pre) as (_ & H2 & H3 & _).
  fold w in H2, H3. split; [exact H3|]. split.
  - destruct (pending_fetches w) as [|n]; [lia|].
    destruct H2 as (_ & ->); [discriminate | lia].
  - intros w0 Hkey. unfold fetchAllHighlights. rewrite Hkey.
    destruct w0 as [ph s ? ? ? ? ? ? ? ? ? ? ? ? ?].
    destruct ph; split; reflexivity.
Qed.

Lemma C9_one_fetch_per_instance_witness :
  let w := run enabled_with_key init
             [Mount; FetchSettled (json_response None); RouteChangeStart] in
  List.length (requests w) <= 1 /\
  pending_fetches
    (exec_all (fetchAllHighlights enabled_with_key)
       (run enabled_with_key init [Mount]))
  = S (pending_fetches (run enabled_with_key init [Mount])).
Proof.
  intros w.
  pose proof (@C9_one_fetch_per_instance enabled_with_key
                [Mount; FetchSettled (json_response None); RouteChangeStart])
    as (H1 & _ & H3).
  split; [exact H1|].
  exact (proj2 (H3 (run enabled_with_key init [Mount]) eq_refl)).
Defined.

(** Claim C9, as stated, fails: on the mounted component with its fetch
    outstanding, a second call of [fetchAllHighlights] makes a second
    request and a second fetch is outstanding. *)
Lemma C9_counterexample :
  let w := run enabled_with_key init [Mount] in
  let w' := exec_all (fetchAllHighlights enabled_with_key) w in
  pending_fetches w = 1 /\
  requests w = [review_request enabled_with_key] /\
  requests w'
  = [review_request enabled_with_key; review_request enabled_with_key] /\
  pending_fetches w' = 2 /\
  ~ second_fetch_is_noop enabled_with_key w.
Proof.
  cbv zeta.
  split; [vm_compute; reflexivity|]. split; [vm_compute; reflexivity|].
  split; [vm_compute; reflexivity|]. split; [vm_compute; reflexivity|].
  intros H. unfold second_fetch_is_noop in H.
  assert (Hf : pending_fetches (run enabled_with_key init [Mount]) <> 0)
    by (vm_compute; discriminate).
  destruct (H Hf) as (_ & Hc).
  vm_compute in Hc. discriminate Hc.
Qed.

(** ** The item on display *)

(** Claim C10.  Computing the item to display is total.  When
    [currentIndex] is an index of [highlights], [highlight] is that
    element.  Otherwise (empty list, index out of range) it is null, and
    whatever the component renders has no quote block. *)
Theorem C10_highlight_safe s :
  let i := currentIndex s in
  let n := Z.of_nat (List.length (highlights s)) in
  ((0 <= i < n)%Z ->
   exists x, nth_error (highlights s) (Z.to_nat i) = Some x /\
             highlight s = Some x) /\
  (~ (0 <= i < n)%Z ->
   highlight s = None /\
   forall cfg v, render cfg s = Some v -> v_quote v = None).
Proof.
  intros i n. unfold highlight, JS.index. fold i. split.
  - intros [H0 Hn]. destruct (Z.ltb_spec i 0); [lia|].
    destruct (nth_error (highlights s) (Z.to_nat i)) as [x|] eqn:E.
    + now exists x.
    + apply nth_error_None in E. unfold n in Hn. lia.
  - intros Hout.
    assert (Hnone : (if (i <? 0)%Z then None
                     else nth_error (highlights s) (Z.to_nat i)) = None).
    { destruct (Z.ltb_spec i 0); [reflexivity|].
      apply nth_error_None. unfold n in Hout. lia. }
    rewrite Hnone. split; [reflexivity|].
    intros cfg v Hv. unfold render in Hv.
    destruct (_ || _); [discriminate|]. injection Hv as <-. cbn.
    unfold highlight, JS.index. fold i. rewrite Hnone.
    now destruct (_ && _).
Qed.

Lemma C10_highlight_safe_witness :
  let s1 :=
    apply_setter (setCurrentIndex 1)
      (apply_setter (setHighlights [item "A"; item "B"]) initialState) in
  let s5 := apply_setter (setCurrentIndex 5) s1 in
  highlight s1 = Some (item "B") /\ highlight s5 = None.
Proof.
  intros s1 s5.
  destruct (proj1 (C10_highlight_safe s1) ltac:(cbn; lia)) as (x & Hx & H1).
  cbn in Hx. injection Hx as <-.
  destruct (proj2 (C10_highlight_safe s5) ltac:(cbn; lia)) as (H5 & _).
  split; [exact H1 | exact H5].
Defined.

(** * Further properties

    The outcomes of the fetch, the display, the index of the item on
    display, the window listeners and the life of a component instance. *)

(** ** Strings *)

(** The digits of a number read back as that number. *)
Lemma number_to_string_inv n :
  option_map Nat.of_uint (NilZero.uint_of_string (JS.number_to_string n))
  = Some n.
Proof.
  unfold JS.number_to_string.
  rewrite NilZero.usu.
  - cbn. now rewrite DecimalNat.Unsigned.of_to.
  - rewrite <- (DecimalNat.Unsigned.of_to n) at 1.
    rewrite DecimalNat.Unsigned.to_of. unfold Decimal.unorm.
    destruct (Decimal.nzhead _); discriminate.
Qed.

Lemma prefix_app n post : String.prefix n (n ++ post) = true.
Proof.
  induction n as [|a n IH]; cbn; [now destruct post|].
  destruct (ascii_dec a a); [exact IH | congruence].
Qed.

Lemma prefix_inv n :
  forall h, String.prefix n h = true -> exists post, h = n ++ post.
Proof.
  induction n as [|a n IH]; intros h H.
  - now exists h.
  - destruct h as [|b h]; [discriminate|]. cbn in H.
    destruct (ascii_dec a b) as [->|]; [|discriminate].
    destruct (IH h H) as (post & ->). now exists post.
Qed.

(** [includes] is the substring test. *)
Lemma includes_spec hay needle :
  JS.includes hay needle = true <->
  exists pre post, hay = pre ++ needle ++ post.
Proof.
  split.
  - induction hay as [|a hay IH]; cbn [JS.includes].
    + destruct (String.prefix needle "") eqn:E; [|discriminate]. intros _.
      apply prefix_inv in E as (post & E). now exists "", post.
    + destruct (String.prefix needle (String a hay)) eqn:E.
      * intros _. apply prefix_inv in E as (post & E). now exists "", post.
      * intros H. destruct (IH H) as (pre & post & ->).
        now exists (String a pre), post.
  - intros (pre & post & ->). induction pre as [|a pre IH].
    + cbn [append]. destruct (needle ++ post) eqn:E; cbn [JS.includes];
        rewrite <- E, prefix_app; reflexivity.
    + cbn [append JS.includes]. rewrite IH. now destruct (String.prefix _ _).
Qed.

(** ** The settled fetch *)

Lemma console_exec_all cs w :
  console (exec_all cs w) = (console w ++ logs cs)%list.
Proof.
  revert w. induction cs as [|c cs IH]; intros w.
  - cbn. now rewrite app_nil_r.
  - change (exec_all (c :: cs) w) with (exec_all cs (exec c w)).
    rewrite IH. unfold logs. cbn [filter].
    destruct c; cbn [exec is_console];
      try (unfold update; destruct (phase w); reflexivity);
      try reflexivity;
      cbn; now rewrite <- app_assoc.
Qed.

Lemma console_commit w : console (commit w) = console w.
Proof.
  symmetry.
  apply (@commit_rel (fun c => negb (is_console c))
           (fun w w' => console w = console w'));
    try congruence; try reflexivity.
  intros c w0 Hc. destruct c; try discriminate Hc; cbn [exec];
    try reflexivity; unfold update; destruct (phase w0); reflexivity.
Qed.

(** What a settled fetch does: the continuation of [fetchAllHighlights]
    runs; its setters reach the state of a mounted component only. *)
Lemma settle_spec_any cfg w o :
  pending_fetches w <> 0 ->
  let w' := step cfg w (FetchSettled o) in
  state w'
  = (if alive w
     then fold_left (fun s c => apply_setter c s)
            (fetchAllHighlights_resume o) (state w)
     else state w) /\
  pending_fetches w' = pred (pending_fetches w) /\
  requests w' = requests w /\
  console w' = (console w ++ logs (fetchAllHighlights_resume o))%list.
Proof.
  intros Hpf. cbn zeta. cbn [step].
  destruct (pending_fetches w) as [|n] eqn:E; [congruence|].
  set (w0 := with_pending_fetches n w).
  assert (Hnf : forallb (fun c => match c with fetch _ => false | _ => true end)
                  (fetchAllHighlights_resume o) = true).
  { destruct (resume_cases o)
        as [(m & ->) | [(m & ->) | [(h & hs & ->) | (d & ->)]]];
      reflexivity. }
  destruct (no_fetch_exec_all _ w0 Hnf) as (Hp' & Hr').
  set (w1 := exec_all (fetchAllHighlights_resume o) w0) in *.
  assert (Ep : pending_fetches (commit w1) = pending_fetches w1)
    by (change (snd (fst (fetch_view (commit w1))) = snd (fst (fetch_view w1)));
        now rewrite fetch_view_commit).
  assert (Er : requests (commit w1) = requests w1)
    by (change (snd (fetch_view (commit w1)) = snd (fetch_view w1));
        now rewrite fetch_view_commit).
  rewrite state_commit, console_commit, Ep, Er. subst w1.
  rewrite state_exec_all, console_exec_all, Hp', Hr'.
  change (alive w0) with (alive w).
  repeat split.
Qed.

Lemma settle_spec cfg w o :
  alive w = true -> pending_fetches w <> 0 ->
  let w' := step cfg w (FetchSettled o) in
  state w'
  = fold_left (fun s c => apply_setter c s) (fetchAllHighlights_resume o)
      (state w) /\
  pending_fetches w' = pred (pending_fetches w) /\
  requests w' = requests w /\
  console w' = (console w ++ logs (fetchAllHighlights_resume o))%list.
Proof.
  intros Ha Hpf. pose proof (@settle_spec_any cfg w o Hpf) as H.
  now rewrite Ha in H.
Qed.

(** What a rendered overlay shows, hook by hook. *)
Lemma render_view cfg s v :
  render cfg s = Some v ->
  v_translate v = position s /\
  v_grabbing v = isDragging s /\
  v_spinner v = loading s /\
  v_error v = (if JS.truthy (error s) then error s else None) /\
  v_quote v
  = (if negb (loading s) && negb (JS.truthy (error s)) then highlight s
     else None).
Proof.
  unfold render. destruct (_ || _); [discriminate|].
  intros H. injection H as <-. now repeat split.
Qed.

(** The content-type check passes on a header that contains
    [application/json], and on no other. *)
Lemma json_content_type ct :
  (JS.truthy ct = true /\
   JS.includes (JS.template ct) "application/json" = true) <->
  exists pre post, ct = Some (pre ++ "application/json" ++ post).
Proof.
  split.
  - intros (Ht & Hi). destruct ct as [s|]; [|discriminate Ht].
    cbn [JS.template] in Hi.
    apply includes_spec in Hi as (pre & post & ->). now exists pre, post.
  - intros (pre & post & ->). split.
    + cbn. now destruct pre.
    + apply includes_spec. now exists pre, post.
Qed.

(** ** The outcomes of the fetch *)

(** Property X1.  On a mounted component with the fetch outstanding, a
    response with a success status, a JSON content type and a non-empty
    [highlights] array stores the array, selects its first element, ends
    loading with no error and nothing outstanding; the overlay then shows the
    first element as the quote, with neither spinner nor error. *)
Theorem X1_fetch_success cfg pre r h hs :
  let w := run cfg init pre in
  let w' := step cfg w (FetchSettled (Resolved r)) in
  alive w = true ->
  pending_fetches w <> 0 ->
  ok r = true ->
  JS.truthy (content_type r) = true ->
  JS.includes (JS.template (content_type r)) "application/json" = true ->
  body r = BodyData (Some (h :: hs)) ->
  highlights (state w') = h :: hs /\
  currentIndex (state w') = 0%Z /\
  loading (state w') = false /\
  error (state w') = None /\
  pending_fetches w' = 0 /\
  highlight (state w') = Some h /\
  forall v, render cfg (state w') = Some v ->
            v_quote v = Some h /\ v_spinner v = false /\ v_error v = None.
Proof.
  intros w w' Ha Hpf Hok Ht Hi Hb.
  destruct (fetch_inv_reachable cfg pre) as (_ & H2 & _).
  destruct (H2 Hpf) as (He & H1). fold w in He, H1.
  destruct (@settle_spec cfg w (Resolved r) Ha Hpf) as (Hs & Hp & _).
  fold w' in Hs, Hp. rewrite H1 in Hp.
  unfold fetchAllHighlights_resume in Hs.
  rewrite Hok, Ht, Hi, Hb in Hs. cbn [negb orb] in Hs.
  clearbody w'. clearbody w.
  assert (E1 : highlights (state w') = h :: hs) by (now rewrite Hs).
  assert (E2 : currentIndex (state w') = 0%Z) by (now rewrite Hs).
  assert (E3 : loading (state w') = false) by (now rewrite Hs).
  assert (E4 : error (state w') = None) by (now rewrite Hs).
  assert (E5 : highlight (state w') = Some h).
  { unfold highlight. now rewrite E1, E2. }
  repeat split; try assumption.
  all: apply render_view in H as (_ & _ & Hsp & Her & Hqu).
  - now rewrite Hqu, E3, E4.
  - now rewrite Hsp.
  - now rewrite Her, E4.
Qed.

Lemma X1_fetch_success_witness :
  let w := run enabled_with_key init [Mount] in
  let w' := step enabled_with_key w
              (FetchSettled (json_response (Some [item "a"; item "b"]))) in
  highlights (state w') = [item "a"; item "b"] /\
  highlight (state w') = Some (item "a").
Proof.
  intros w w'.
  pose proof (@X1_fetch_success enabled_with_key [Mount]
                {| status := 200;
                   content_type := Some "application/json";
                   body := BodyData (Some [item "a"; item "b"]) |}
                (item "a") [item "b"]
                eq_refl ltac:(discriminate) eq_refl eq_refl eq_refl eq_refl)
    as (H1 & _ & _ & _ & _ & H6 & _).
  split; [exact H1 | exact H6].
Defined.

(** While the fetch is outstanding nothing is stored yet. *)
Lemma outstanding_empty cfg pre :
  let w := run cfg init pre in
  pending_fetches w <> 0 ->
  highlights (state w) = [] /\ error (state w) = None /\
  pending_fetches w = 1.
Proof.
  intros w Hpf. destruct (fetch_inv_reachable cfg pre) as (H1 & H2 & _).
  fold w in H1, H2. destruct (H2 Hpf) as (He & Hn).
  split; [|now split].
  destruct (highlights (state w)) eqn:E; [reflexivity|].
  destruct H1 as (_ & _ & Hc); [discriminate | congruence].
Qed.

Lemma highlight_empty s : highlights s = [] -> highlight s = None.
Proof.
  intros H. unfold highlight, JS.index. rewrite H.
  destruct (currentIndex s <? 0)%Z; [reflexivity|].
  now destruct (Z.to_nat (currentIndex s)).
Qed.

(** A fetch that fails, on a mounted component: the message of the error
    becomes [error], the failure is logged, nothing else is. *)
Lemma failure_spec cfg pre o m :
  let w := run cfg init pre in
  let w' := step cfg w (FetchSettled o) in
  alive w = true ->
  pending_fetches w <> 0 ->
  fetchAllHighlights_resume o = catch_finally m ->
  error (state w') = Some m /\
  loading (state w') = false /\
  highlights (state w') = [] /\
  pending_fetches w' = 0 /\
  console w'
  = (console w ++ [console_error "获取 Readwise 数据失败:" m])%list /\
  forall v, render cfg (state w') = Some v ->
            v_error v = (if JS.truthy_string m then Some m else None) /\
            v_spinner v = false /\ v_quote v = None.
Proof.
  intros w w' Ha Hpf Hm.
  destruct (@outstanding_empty cfg pre Hpf) as (Hh & _ & H1). fold w in Hh, H1.
  destruct (@settle_spec cfg w o Ha Hpf) as (Hs & Hp & _ & Hc).
  fold w' in Hs, Hp, Hc. rewrite H1 in Hp. rewrite Hm in Hs, Hc.
  clearbody w'. clearbody w.
  assert (E1 : error (state w') = Some m) by (now rewrite Hs).
  assert (E2 : loading (state w') = false) by (now rewrite Hs).
  assert (E3 : highlights (state w') = []) by (now rewrite Hs).
  repeat split; try assumption.
  all: apply render_view in H as (_ & _ & Hsp & Her & Hqu).
  - now rewrite Her, E1.
  - now rewrite Hsp.
  - rewrite Hqu, highlight_empty by exact E3. now destruct (_ && _).
Qed.

(** Property X2.  On a mounted component with the fetch outstanding, a
    response whose status is outside 200-299 fails the fetch: [error] is the
    request-failed message followed by the status in decimal (the status can
    be read back from those digits), loading ends, the collection stays empty,
    the failure is the only thing logged (the body is not read), and the
    overlay shows the message, with neither spinner nor quote. *)
Theorem X2_http_error cfg pre r :
  let w := run cfg init pre in
  let w' := step cfg w (FetchSettled (Resolved r)) in
  let digits := JS.number_to_string (status r) in
  let message := "API 请求失败: " ++ digits in
  alive w = true ->
  pending_fetches w <> 0 ->
  ok r = false ->
  error (state w') = Some message /\
  option_map Nat.of_uint (NilZero.uint_of_string digits) = Some (status r) /\
  loading (state w') = false /\
  highlights (state w') = [] /\
  console w'
  = (console w ++ [console_error "获取 Readwise 数据失败:" message])%list /\
  forall v, render cfg (state w') = Some v ->
            v_error v = Some message /\ v_spinner v = false /\
            v_quote v = None.
Proof.
  intros w w' digits message Ha Hpf Hok.
  assert (Hm : fetchAllHighlights_resume (Resolved r) = catch_finally message).
  { unfold fetchAllHighlights_resume. now rewrite Hok. }
  destruct (@failure_spec cfg pre (Resolved r) message Ha Hpf Hm)
    as (H1 & H2 & H3 & _ & H5 & H6).
  split; [exact H1|]. split; [apply number_to_string_inv|].
  split; [exact H2|]. split; [exact H3|]. split; [exact H5|].
  intros v Hv. destruct (H6 v Hv) as (E1 & E2 & E3).
  split; [|now split]. rewrite E1. reflexivity.
Qed.

Lemma X2_http_error_witness :
  let w := run enabled_with_key init [Mount] in
  let r := {| status := 404; content_type := Some "text/html";
              body := BodyInvalid "Unexpected token" |} in
  let w' := step enabled_with_key w (FetchSettled (Resolved r)) in
  error (state w') = Some "API 请求失败: 404" /\ loading (state w') = false.
Proof.
  intros w r w'.
  pose proof (@X2_http_error enabled_with_key [Mount] r
                eq_refl ltac:(discriminate) eq_refl)
    as (H1 & _ & H3 & _).
  split; [exact H1 | exact H3].
Defined.

(** Property X3.  The content-type check, on a mounted component with the
    fetch outstanding and a success status. The check passes exactly when the
    header is present and contains [application/json] somewhere (a charset
    suffix is accepted): a non-empty [highlights] array is then stored.
    Otherwise the fetch fails whatever the body is: [error] is the
    JSON-expected message followed by the header (by [null] when the header is
    missing), loading ends, the collection stays empty and the body is not
    logged. *)
Theorem X3_content_type cfg pre r :
  let w := run cfg init pre in
  let w' := step cfg w (FetchSettled (Resolved r)) in
  let json :=
    exists before after,
      content_type r = Some (before ++ "application/json" ++ after) in
  let message := "预期接收 JSON 数据，但收到 " ++ JS.template (content_type r) in
  alive w = true ->
  pending_fetches w <> 0 ->
  ok r = true ->
  (json ->
   forall h hs, body r = BodyData (Some (h :: hs)) ->
                highlights (state w') = h :: hs /\ error (state w') = None) /\
  (~ json ->
   error (state w') = Some message /\
   loading (state w') = false /\
   highlights (state w') = [] /\
   console w'
   = (console w ++ [console_error "获取 Readwise 数据失败:" message])%list).
Proof.
  intros w w' json message Ha Hpf Hok. split.
  - intros Hj h hs Hb. apply json_content_type in Hj as (Ht & Hi).
    destruct (@outstanding_empty cfg pre Hpf) as (_ & He & _). fold w in He.
    destruct (@settle_spec cfg w (Resolved r) Ha Hpf) as (Hs & _).
    fold w' in Hs. unfold fetchAllHighlights_resume in Hs.
    rewrite Hok, Ht, Hi, Hb in Hs. cbn [negb orb] in Hs.
    clearbody w'. clearbody w. rewrite Hs. now split.
  - intros Hj.
    assert (Hm : fetchAllHighlights_resume (Resolved r)
                 = catch_finally message).
    { unfold fetchAllHighlights_resume. rewrite Hok. cbn [negb].
      destruct (JS.truthy (content_type r)) eqn:Ht;
        [|reflexivity].
      destruct (JS.includes _ _) eqn:Hi; [|reflexivity].
      destruct Hj. apply json_content_type. now split. }
    destruct (@failure_spec cfg pre (Resolved r) message Ha Hpf Hm)
      as (H1 & H2 & H3 & _ & H5 & _).
    now repeat split.
Qed.

Lemma X3_content_type_witness :
  let w := run enabled_with_key init [Mount] in
  let r := {| status := 200;
              content_type := Some "application/json; charset=utf-8";
              body := BodyData (Some [item "a"]) |} in
  let w' := step enabled_with_key w (FetchSettled (Resolved r)) in
  highlights (state w') = [item "a"].
Proof.
  intros w r w'.
  pose proof (@X3_content_type enabled_with_key [Mount] r
                eq_refl ltac:(discriminate) eq_refl) as (H1 & _).
  apply (H1 (ex_intro _ "" (ex_intro _ "; charset=utf-8" eq_refl))
            (item "a") [] eq_refl).
Defined.

(** Property X4.  On a mounted component with the fetch outstanding, a fetch
    that rejects with an error, or a response that passes the status and
    content-type checks but whose body does not parse, fails the fetch with
    the message [m] of that error: [error] is [m], loading ends, the
    collection stays empty, the failure is logged with [console.error]. The
    overlay shows neither spinner nor quote; it shows [m], unless [m] is the
    empty string, in which case it shows no block at all. *)
Theorem X4_fetch_failure cfg pre o m :
  let w := run cfg init pre in
  let w' := step cfg w (FetchSettled o) in
  alive w = true ->
  pending_fetches w <> 0 ->
  o = Rejected m \/
  (exists r,
     o = Resolved r /\ ok r = true /\
     JS.truthy (content_type r) = true /\
     JS.includes (JS.template (content_type r)) "application/json" = true /\
     body r = BodyInvalid m) ->
  error (state w') = Some m /\
  loading (state w') = false /\
  highlights (state w') = [] /\
  console w'
  = (console w ++ [console_error "获取 Readwise 数据失败:" m])%list /\
  forall v, render cfg (state w') = Some v ->
            v_spinner v = false /\ v_quote v = None /\
            (m <> "" -> v_error v = Some m) /\
            (m = "" -> v_error v = None).
Proof.
  intros w w' Ha Hpf Ho.
  assert (Hm : fetchAllHighlights_resume o = catch_finally m).
  { destruct Ho as [-> | (r & -> & Hok & Ht & Hi & Hb)]; [reflexivity|].
    unfold fetchAllHighlights_resume. now rewrite Hok, Ht, Hi, Hb. }
  destruct (@failure_spec cfg pre o m Ha Hpf Hm)
    as (H1 & H2 & H3 & _ & H5 & H6).
  split; [exact H1|]. split; [exact H2|]. split; [exact H3|].
  split; [exact H5|].
  intros v Hv. destruct (H6 v Hv) as (E1 & E2 & E3).
  split; [exact E2|]. split; [exact E3|]. rewrite E1.
  unfold JS.truthy_string. destruct (String.eqb_spec m ""); cbn; split; congruence.
Qed.

Lemma X4_fetch_failure_witness :
  let w := run enabled_with_key init [Mount] in
  let w' := step enabled_with_key w (FetchSettled (Rejected "Failed to fetch")) in
  error (state w') = Some "Failed to fetch" /\ loading (state w') = false.
Proof.
  intros w w'.
  pose proof (@X4_fetch_failure enabled_with_key [Mount]
                (Rejected "Failed to fetch") "Failed to fetch"
                eq_refl ltac:(discriminate) (or_introl eq_refl))
    as (H1 & H2 & _).
  split; [exact H1 | exact H2].
Defined.

(** ** The display *)

Lemma fine_any cs : forallb (fine (fun _ => true)) cs = true.
Proof. apply forallb_forall. intros c _. apply orb_true_r. Qed.

(** Of the three effects of the mount, only effect 2 calls setters. *)
Lemma state_mount cfg w :
  state (mount cfg w)
  = fold_left (fun s c => apply_setter c s) (mount_effect cfg) (state w).
Proof.
  unfold mount. rewrite state_commit.
  change (state (with_effect ?l ?x)) with (state x).
  rewrite !state_exec_all. unfold alive. rewrite !phase_exec_all.
  cbn [phase with_phase]. change (state (with_phase Alive w)) with (state w).
  unfold drag_effect. now destruct (l_isDragging _).
Qed.

(** An unmounted component keeps its state. *)
Lemma state_step_dead cfg w ev :
  is_Mount ev = false -> alive w = false ->
  state (step cfg w ev) = state w /\ alive (step cfg w ev) = false.
Proof.
  intros Hev.
  apply (@step_rel (fun _ => true)
           (fun w w' => alive w = false ->
                        state w' = state w /\ alive w' = false)).
  - now split.
  - intros a b c Hab Hbc Ha. destruct (Hab Ha) as (E1 & E2).
    destruct (Hbc E2) as (E3 & E4). split; congruence.
  - intros c w0 _ Ha. rewrite state_exec, Ha, andb_false_r.
    split; [reflexivity|]. unfold alive. now rewrite phase_exec.
  - now split.
  - now split.
  - destruct ev; try discriminate Hev; cbn [event_fine]; intros;
      repeat match goal with |- _ /\ _ => split end; intros;
      try apply fine_any; try reflexivity; try assumption.
    now destruct H.
Qed.

Lemma mounted_step cfg w ev :
  is_Mount ev = false -> mounted (state (step cfg w ev)) = mounted (state w).
Proof.
  intros Hev. symmetry.
  apply (@state_step_rel keeps_mounted
           (fun s s' => mounted s = mounted s')); try congruence.
  - intros c s Hc. now destruct c.
  - fine_event ev.
Qed.

Lemma display_inv_init cfg : display_inv cfg init.
Proof.
  unfold display_inv. cbn. repeat split; try congruence; try discriminate.
Qed.

Lemma display_inv_step cfg w ev :
  fetch_inv w -> display_inv cfg w -> display_inv cfg (step cfg w ev).
Proof.
  intros (F1 & F2 & _ & F4) (D1 & D2 & D3).
  destruct (is_fetch_event ev) eqn:Ef.
  2:{ assert (Em : is_Mount ev = false) by (now destruct ev).
      pose proof (fetch_view_step cfg w ev Ef) as Hv.
      pose proof (@mounted_step cfg w ev Em) as Hm.
      pose proof (phase_step cfg w ev) as Hp.
      unfold fetch_view in Hv. injection Hv as Eh El Ee Ep _.
      unfold display_inv. rewrite Eh, El, Ee, Ep, Hm, Hp.
      split; [|split; [exact D2|]].
      - rewrite D1. destruct ev, (phase w); try discriminate Ef;
          split; congruence.
      - intros Hph. apply D3.
        destruct ev, (phase w); try discriminate Ef; congruence. }
  destruct ev; try discriminate Ef.
  - (* Mount *)
    cbn [step]. destruct (phase w) eqn:Hp;
      try (unfold display_inv; rewrite Hp; now split).
    destruct (F4 eq_refl) as (Hh & Hpf & _).
    pose proof (state_mount cfg w) as Hs.
    pose proof (fetch_view_mount cfg w) as Hv.
    pose proof (phase_step cfg w Mount) as Hq. cbn [step] in Hq.
    rewrite Hp in Hq.
    assert (Ep : pending_fetches (mount cfg w)
                 = pending_fetches
                     (exec_all (mount_effect cfg) (with_phase Alive w)))
      by (change (snd (fst (fetch_view (mount cfg w)))
                  = snd (fst (fetch_view
                                (exec_all (mount_effect cfg)
                                   (with_phase Alive w)))));
          now rewrite Hv).
    clear Hv. unfold display_inv. rewrite Hq, Ep, Hs.
    unfold mount_effect, fetchAllHighlights.
    destruct (BLOG.READWISE_ENABLED cfg);
      [destruct (negb (JS.truthy (BLOG.READWISE_API_KEY cfg)))|];
      cbn; rewrite ?Hpf; repeat split; intros; try congruence;
      try discriminate; try lia; auto.
  - (* FetchSettled *)
    destruct (Nat.eq_dec (pending_fetches w) 0) as [Hpf | Hne];
      [cbn [step]; rewrite Hpf; unfold display_inv; now split|].
    destruct (F2 Hne) as (He & H1).
    pose proof (phase_step cfg w (FetchSettled o)) as Hq.
    pose proof (@mounted_step cfg w (FetchSettled o) eq_refl) as Hm.
    destruct (alive w) eqn:Ha.
    + destruct (@settle_spec cfg w o Ha Hne) as (Hs & Hp & _).
      rewrite H1 in Hp. cbn [pred] in Hp.
      unfold display_inv. rewrite Hq, Hp, Hm.
      assert (phase w = Alive) as Hph
          by (unfold alive in Ha; now destruct (phase w)).
      rewrite Hph.
      assert (El : loading (state (step cfg w (FetchSettled o))) = false).
      { rewrite Hs.
        destruct (resume_cases o)
        as [(m & ->) | [(m & ->) | [(h & hs & ->) | (d & ->)]]];
          reflexivity. }
      assert (Ee : highlights (state (step cfg w (FetchSettled o))) = [] ->
                   error (state (step cfg w (FetchSettled o))) <> None).
      { rewrite Hs.
        destruct (resume_cases o)
        as [(m & ->) | [(m & ->) | [(h & hs & ->) | (d & ->)]]];
          cbn; congruence. }
      rewrite El. rewrite Hph in D1.
      repeat split; intros; try congruence; try discriminate; auto.
      now apply D1.
    + destruct (@state_step_dead cfg w (FetchSettled o) eq_refl Ha)
        as (Hs & Ha').
      unfold display_inv. rewrite Hq, Hs.
      split; [exact D1 | split; [exact D2|]].
      intros Hph. unfold alive in Ha. now rewrite Hph in Ha.
Qed.

Lemma display_inv_reachable cfg evs : display_inv cfg (run cfg init evs).
Proof.
  induction evs as [|ev evs IH] using rev_ind; [apply display_inv_init|].
  rewrite run_snoc. apply display_inv_step; [apply fetch_inv_reachable | exact IH].
Qed.

(** Property X5.  In the render that follows each event (the updates of one
    handler run are batched), while the overlay is on screen, the spinner
    is shown exactly while the fetch is outstanding. *)
Theorem X5_spinner cfg pre :
  let w := run cfg init pre in
  rendered cfg w = true ->
  exists v,
    render cfg (state w) = Some v /\
    (v_spinner v = true <-> pending_fetches w = 1).
Proof.
  intros w Hr. pose proof (rendered_alive _ _ Hr) as Hp.
  unfold rendered in Hr. rewrite Hp in Hr.
  destruct (render cfg (state w)) as [v|] eqn:Hv; [|discriminate Hr].
  exists v. split; [reflexivity|].
  assert (He : BLOG.READWISE_ENABLED cfg = true).
  { unfold render in Hv. destruct (BLOG.READWISE_ENABLED cfg); [reflexivity|].
    now rewrite orb_true_r in Hv. }
  destruct (display_inv_reachable cfg pre) as (_ & _ & D3).
  destruct (D3 Hp He) as (Hl & _). fold w in Hl.
  destruct (fetch_inv_reachable cfg pre) as (_ & F2 & _). fold w in F2.
  apply render_view in Hv as (_ & _ & -> & _).
  rewrite Hl. split; [intros H; now apply F2 | intros ->; discriminate].
Qed.

Lemma X5_spinner_witness :
  let w := run enabled_with_key init [Mount] in
  exists v,
    render enabled_with_key (state w) = Some v /\
    (v_spinner v = true <-> pending_fetches w = 1).
Proof.
  intros w.
  apply (@X5_spinner enabled_with_key [Mount]). vm_compute. reflexivity.
Defined.

(** Property X6.  In every reachable world, after an event (the updates
    of one handler run are batched): the error is never set while
    [loading] is true, that is [error] is null whenever [loading] is true,
    whether or not anything is rendered; and whatever the overlay renders
    shows at most one of its three blocks: the spinner, the error or the
    quote. *)
Theorem X6_one_block cfg pre :
  let w := run cfg init pre in
  (loading (state w) = true -> error (state w) = None) /\
  forall v,
    render cfg (state w) = Some v ->
    (v_spinner v = true -> v_error v = None /\ v_quote v = None) /\
    (v_error v <> None -> v_spinner v = false /\ v_quote v = None) /\
    (v_quote v <> None -> v_spinner v = false /\ v_error v = None).
Proof.
  intros w.
  destruct (display_inv_reachable cfg pre) as (_ & D2 & _). fold w in D2.
  split; [exact D2|]. intros v Hv.
  apply render_view in Hv as (_ & _ & -> & -> & ->).
  destruct (loading (state w)).
  - rewrite (D2 eq_refl). cbn. repeat split; congruence.
  - destruct (JS.truthy (error (state w))); cbn; repeat split; congruence.
Qed.

Lemma X6_one_block_witness :
  let w := run enabled_with_key init [Mount] in
  let v := {| v_translate := origin; v_grabbing := false;
              v_spinner := true; v_error := None; v_quote := None |} in
  loading (state w) = true /\ error (state w) = None /\
  render enabled_with_key (state w) = Some v /\
  (v_spinner v = true -> v_error v = None /\ v_quote v = None).
Proof.
  intros w v.
  assert (Hl : loading (state w) = true) by (vm_compute; reflexivity).
  assert (Hv : render enabled_with_key (state w) = Some v)
    by (vm_compute; reflexivity).
  destruct (@X6_one_block enabled_with_key [Mount]) as (He & Hb).
  split; [exact Hl|]. split; [exact (He Hl)|]. split; [exact Hv|].
  apply (Hb v Hv).
Defined.

(** Property X7.  The overlay is on screen exactly when the component is
    mounted, the feature is enabled and the overlay has not been hidden; the
    [mounted] hook is true from the mount on. *)
Theorem X7_on_screen cfg pre :
  let w := run cfg init pre in
  rendered cfg w
  = alive w && BLOG.READWISE_ENABLED cfg && isVisible (state w) /\
  (mounted (state w) = true <-> phase w <> Fresh).
Proof.
  intros w. destruct (display_inv_reachable cfg pre) as (D1 & _).
  fold w in D1. split; [|exact D1].
  unfold rendered, alive, render.
  destruct (phase w) eqn:Hp; try reflexivity.
  assert (Hm : mounted (state w) = true) by (apply D1; discriminate).
  rewrite Hm. cbn.
  now destruct (BLOG.READWISE_ENABLED cfg), (isVisible (state w)).
Qed.

(** ** The index of the item on display *)

Lemma items_step cfg w ev :
  writes_items ev = false ->
  highlights (state (step cfg w ev)) = highlights (state w) /\
  currentIndex (state (step cfg w ev)) = currentIndex (state w).
Proof.
  intros Hev.
  apply (@state_step_rel keeps_items
           (fun s s' => highlights s' = highlights s /\
                        currentIndex s' = currentIndex s)).
  - now split.
  - intros a b c [] []. split; congruence.
  - intros c s Hc. now destruct c.
  - fine_event ev. now split.
Qed.

Lemma valid_random_bounds random :
  valid_random (ClickRefresh random) = true ->
  (0 <= random)%Q /\ (random < 1)%Q.
Proof.
  cbn [valid_random]. intros H. apply andb_prop in H as [H0 H1].
  apply Qle_bool_iff in H0. split; [exact H0|].
  apply Qnot_le_lt. intros Hc. apply Qle_bool_iff in Hc.
  now rewrite Hc in H1.
Qed.

Lemma index_inv_init : index_inv init.
Proof. unfold index_inv. cbn. repeat split; try lia; congruence. Qed.

Lemma index_inv_step cfg w ev :
  valid_random ev = true -> index_inv w -> index_inv (step cfg w ev).
Proof.
  intros Hev Hinv. destruct (writes_items ev) eqn:Ew.
  2:{ destruct (@items_step cfg w ev Ew) as (Eh & Ei).
      unfold index_inv. now rewrite Eh, Ei. }
  destruct ev; try discriminate Ew.
  - (* a click on the refresh button *)
    cbn [step]. destruct (rendered cfg w) eqn:Hr; [|exact Hinv].
    apply rendered_alive in Hr. unfold reselect.
    unfold index_inv.
    rewrite state_commit, state_exec_all. unfold alive. rewrite Hr.
    unfold refreshHighlight.
    destruct (highlights (state w)) as [|h hs] eqn:Hh;
      [cbn [fold_left]; exact Hinv|].
    destruct (@valid_random_bounds random Hev) as (H0 & H1).
    pose proof (@floor_mul_bounds random (List.length (h :: hs)) H0 H1
                  ltac:(discriminate)) as Hb.
    destruct (state w) as [mt hs0 ci vis ld er pos drg off].
    cbn [highlights] in Hh. subst hs0.
    cbn [fold_left apply_setter highlights currentIndex mounted isVisible
         loading error position isDragging dragOffset].
    split; [apply Hb | split; [discriminate | intros _; apply Hb]].
  - (* a settled fetch *)
    destruct (Nat.eq_dec (pending_fetches w) 0) as [Hpf | Hne];
      [cbn [step]; now rewrite Hpf|].
    destruct (alive w) eqn:Ha.
    + destruct (@settle_spec cfg w o Ha Hne) as (Hs & _).
      unfold index_inv. rewrite Hs.
      destruct (resume_cases o)
        as [(m & ->) | [(m & ->) | [(h & hs & ->) | (d & ->)]]];
        try exact Hinv.
      cbn. split; [lia | split; [discriminate | intros _; lia]].
    + destruct (@state_step_dead cfg w (FetchSettled o) eq_refl Ha)
        as (Hs & _).
      unfold index_inv. now rewrite Hs.
Qed.

Lemma index_inv_run cfg evs :
  forall w,
    forallb valid_random evs = true -> index_inv w ->
    index_inv (run cfg w evs).
Proof.
  induction evs as [|ev evs IH]; intros w Hevs Hinv; [exact Hinv|].
  cbn [forallb] in Hevs. apply andb_prop in Hevs as [Hev Hevs].
  change (run cfg w (ev :: evs)) with (run cfg (step cfg w ev) evs).
  apply IH; [exact Hevs | now apply index_inv_step].
Qed.

Lemma highlight_index s :
  (0 <= currentIndex s < Z.of_nat (List.length (highlights s)))%Z ->
  exists x, highlight s = Some x /\ In x (highlights s).
Proof.
  intros Hi. unfold highlight, JS.index.
  destruct (Z.ltb_spec (currentIndex s) 0); [lia|].
  destruct (nth_error (highlights s) (Z.to_nat (currentIndex s)))
    as [x|] eqn:E.
  - exists x. split; [reflexivity|]. eapply nth_error_In, E.
  - apply nth_error_None in E. lia.
Qed.

(** Once items are stored, the item on display is one of them. *)
Lemma loaded_item cfg evs :
  let w := run cfg init evs in
  forallb valid_random evs = true ->
  highlights (state w) <> [] ->
  (0 <= currentIndex (state w)
   < Z.of_nat (List.length (highlights (state w))))%Z /\
  loading (state w) = false /\ error (state w) = None /\
  exists x, highlight (state w) = Some x /\ In x (highlights (state w)).
Proof.
  intros w Hevs Hh.
  destruct (@index_inv_run cfg evs init Hevs index_inv_init)
    as (H0 & _ & H2).
  fold w in H0, H2.
  destruct (fetch_inv_reachable cfg evs) as (F1 & _). fold w in F1.
  destruct (F1 Hh) as (Hl & He & _).
  assert (Hi : (0 <= currentIndex (state w)
                < Z.of_nat (List.length (highlights (state w))))%Z)
    by (split; [exact H0 | now apply H2]).
  split; [exact Hi|]. split; [exact Hl|]. split; [exact He|].
  now apply highlight_index.
Qed.

(** Property X8.  As long as every outcome of [Math.random()] is a number of
    [0, 1), [currentIndex] is never negative, and once items are stored it is
    an index of the collection: the item on display is an element of the
    collection, and whatever the overlay renders shows it as the quote, with
    neither spinner nor error. *)
Theorem X8_index_valid cfg evs :
  let w := run cfg init evs in
  forallb valid_random evs = true ->
  (0 <= currentIndex (state w))%Z /\
  (highlights (state w) <> [] ->
   (currentIndex (state w)
    < Z.of_nat (List.length (highlights (state w))))%Z /\
   exists x,
     highlight (state w) = Some x /\ In x (highlights (state w)) /\
     forall v, render cfg (state w) = Some v ->
               v_quote v = Some x /\ v_spinner v = false /\
               v_error v = None).
Proof.
  intros w Hevs.
  destruct (@index_inv_run cfg evs init Hevs index_inv_init) as (H0 & _).
  fold w in H0. split; [exact H0|]. intros Hh.
  destruct (@loaded_item cfg evs Hevs Hh) as (Hi & Hl & He & x & Hx & Hin).
  fold w in Hi, Hl, He, Hx, Hin.
  split; [apply Hi|].
  exists x. split; [exact Hx|]. split; [exact Hin|].
  intros v Hv. apply render_view in Hv as (_ & _ & -> & -> & ->).
  now rewrite Hl, He.
Qed.

Lemma X8_index_valid_witness :
  let w := run enabled_with_key init
             [Mount;
              FetchSettled (json_response (Some [item "a"; item "b"]));
              ClickRefresh (3 # 4)] in
  (0 <= currentIndex (state w))%Z.
Proof.
  intros w.
  apply (@X8_index_valid enabled_with_key
           [Mount;
            FetchSettled (json_response (Some [item "a"; item "b"]));
            ClickRefresh (3 # 4)]).
  vm_compute. reflexivity.
Defined.

(** Property X9.  As long as every outcome of [Math.random()] is a number
    of [0, 1), an overlay that is on screen after an event is never blank:
    it shows the spinner, the error or the quote, unless the fetch failed
    with an empty message, which is stored as the error and shown as
    nothing. *)
Theorem X9_never_blank cfg evs v :
  let w := run cfg init evs in
  forallb valid_random evs = true ->
  rendered cfg w = true ->
  render cfg (state w) = Some v ->
  v_spinner v = true \/ v_error v <> None \/ v_quote v <> None \/
  error (state w) = Some "".
Proof.
  intros w Hevs Hr Hv. pose proof (rendered_alive _ _ Hr) as Hp.
  assert (He : BLOG.READWISE_ENABLED cfg = true).
  { unfold render in Hv. destruct (BLOG.READWISE_ENABLED cfg); [reflexivity|].
    now rewrite orb_true_r in Hv. }
  destruct (display_inv_reachable cfg evs) as (_ & _ & D3).
  destruct (D3 Hp He) as (_ & Hd). fold w in Hd.
  pose proof (@loaded_item cfg evs Hevs) as Hq. fold w in Hq.
  pose proof (render_view _ _ Hv) as (_ & _ & Hsp & Her & Hqu).
  rewrite Hsp, Her, Hqu.
  destruct (loading (state w)) eqn:El; [now left | right].
  destruct (highlights (state w)) as [|h hs] eqn:Hh.
  - specialize (Hd eq_refl eq_refl).
    destruct (error (state w)) as [m|]; [|congruence].
    cbn. unfold JS.truthy_string.
    destruct (String.eqb_spec m ""); [subst; now right; right|].
    left. discriminate.
  - right. left. destruct Hq as (_ & _ & He' & x & Hx & _); [discriminate|].
    rewrite He', Hx. discriminate.
Qed.

Lemma X9_never_blank_witness :
  let w := run enabled_with_key init [Mount; FetchSettled (Rejected "")] in
  let v := {| v_translate := origin; v_grabbing := false;
              v_spinner := false; v_error := None; v_quote := None |} in
  render enabled_with_key (state w) = Some v /\
  error (state w) = Some "".
Proof.
  intros w v.
  assert (Hv : render enabled_with_key (state w) = Some v)
    by (vm_compute; reflexivity).
  split; [exact Hv|].
  destruct (@X9_never_blank enabled_with_key
              [Mount; FetchSettled (Rejected "")] v
              ltac:(vm_compute; reflexivity) ltac:(vm_compute; reflexivity)
              Hv)
    as [H | [H | [H | H]]];
    [discriminate H | now destruct H | now destruct H | exact H].
Defined.

(** ** The window listeners *)

(** The listeners the drag invariant leaves attached. *)
Lemma attached_spec w :
  tracking_inv w ->
  window_listeners w
  = (if alive w && isDragging (state w)
     then [(pointermove, drag_effect_listener w);
           (pointerup, drag_effect_listener w)]
     else []) /\
  (forall ev l,
     In (ev, l) (window_listeners w) ->
     l_isDragging l = true /\ l_dragOffset l = dragOffset (state w)) /\
  route_listener w = alive w.
Proof.
  intros (_ & _ & _ & He). unfold effects_inv in He. unfold alive.
  destruct (phase w).
  - destruct He as (-> & -> & _). cbn. now repeat split.
  - destruct He as (_ & Hl1 & Hl2 & -> & ->). unfold attached. cbn [andb].
    split; [reflexivity|]. split; [|reflexivity].
    intros ev l Hin. destruct (isDragging (state w)); [|destruct Hin].
    destruct Hin as [E | [E | []]]; injection E as _ <-; now split.
  - destruct He as (-> & ->). cbn. now repeat split.
Qed.

(** Property X10.  In every reachable world the window listeners are the ones
    of effect 3's last run: none unless the component is mounted and tracking,
    and then exactly one [pointermove] and one [pointerup] listener, created
    by the same render. An attached listener closes over [isDragging = true]
    and over the current [dragOffset], so the guard of [handlePointerMove]
    never stops an attached listener and no listener uses the anchor of an
    earlier gesture. The navigation handler is registered exactly while the
    component is mounted. *)
Theorem X10_listeners cfg pre :
  let w := run cfg init pre in
  window_listeners w
  = (if alive w && isDragging (state w)
     then [(pointermove, drag_effect_listener w);
           (pointerup, drag_effect_listener w)]
     else []) /\
  (forall ev l,
     In (ev, l) (window_listeners w) ->
     l_isDragging l = true /\ l_dragOffset l = dragOffset (state w)) /\
  route_listener w = alive w.
Proof.
  intros w. apply attached_spec, tracking_inv_reachable.
Qed.

(** ** Events outside a gesture *)

Lemma not_tracking cfg pre :
  let w := run cfg init pre in
  alive w && isDragging (state w) = false ->
  window_listeners w = [] /\ frame_callbacks w = [] /\ commit w = w.
Proof.
  intros w Hi. pose proof (tracking_inv_reachable cfg pre) as Hinv.
  fold w in Hinv. split; [|split].
  - destruct Hinv as (_ & _ & _ & He). unfold effects_inv in He.
    unfold alive in Hi. destruct (phase w); try apply He.
    destruct He as (_ & _ & _ & -> & _). unfold attached.
    cbn [andb] in Hi. now rewrite Hi.
  - destruct Hinv as (_ & _ & [Hq | (Hp & Hd & _)] & _); [exact Hq|].
    unfold alive in Hi. now rewrite Hp, Hd in Hi.
  - now apply tracking_commit_id.
Qed.

Lemma run_frame_empty w : frame_callbacks w = [] -> run_frame w = w.
Proof.
  intros H. unfold run_frame. rewrite H. world w. cbn in H. now subst.
Qed.

(** Property X11.  Outside a gesture (the component is not mounted or no
    pointer is down on the overlay), a pointer-move, a pointer-up and an
    animation frame reach no code of the component: the world stays as it is. *)
Theorem X11_idle_ignores cfg pre e :
  let w := run cfg init pre in
  alive w && isDragging (state w) = false ->
  step cfg w (PointerMove e) = w /\
  step cfg w (PointerUp e) = w /\
  step cfg w AnimationFrame = w.
Proof.
  intros w Hi. destruct (@not_tracking cfg pre Hi) as (Hl & Hf & Hc).
  fold w in Hl, Hf, Hc.
  cbn [step]. unfold dispatch. rewrite Hl. cbn [fold_left].
  now rewrite run_frame_empty, Hc.
Qed.

Lemma X11_idle_ignores_witness :
  let w := run enabled_with_key init [Mount] in
  step enabled_with_key w (PointerMove (at_point 80 80)) = w /\
  step enabled_with_key w (PointerUp (at_point 80 80)) = w /\
  step enabled_with_key w AnimationFrame = w.
Proof.
  intros w.
  apply (@X11_idle_ignores enabled_with_key [Mount] (at_point 80 80)).
  vm_compute. reflexivity.
Defined.

(** ** The guard of the pointer-down handler *)

(** Property X12.  A pointer-down of a mouse with any button but the primary
    one is ignored: the world stays as it is. Every other pointer-down on the
    overlay (the primary mouse button, or a pointer that is no mouse, whatever
    its button) starts tracking; it does not move the overlay, which renders
    with the grabbing cursor. *)
Theorem X12_pointer_down_guard cfg pre e :
  let w := run cfg init pre in
  let w' := step cfg w (PointerDown e) in
  (pointerType e = "mouse" -> button e <> 0%Z -> w' = w) /\
  (rendered cfg w = true ->
   pointerType e <> "mouse" \/ button e = 0%Z ->
   isDragging (state w') = true /\
   position (state w') = position (state w) /\
   exists v, render cfg (state w') = Some v /\ v_grabbing v = true /\
             v_translate v = position (state w)).
Proof.
  intros w w'. pose proof (tracking_inv_reachable cfg pre) as Hinv.
  fold w in Hinv. split.
  - intros Hm Hb. unfold w'. cbn [step].
    destruct (rendered cfg w); [|reflexivity].
    unfold handlePointerDown. rewrite Hm.
    destruct (Z.eqb_spec (button e) 0); [contradiction|].
    cbn. now apply tracking_commit_id.
  - intros Hr Hacc.
    assert (Ha : accepted e = true).
    { unfold accepted. destruct Hacc as [Hm | ->].
      - destruct (String.eqb_spec (pointerType e) "mouse");
          [contradiction | reflexivity].
      - cbn. now rewrite andb_false_r. }
    destruct (@down_spec cfg w e Hinv Hr Ha) as (_ & Hd & _).
    fold w' in Hd.
    assert (Hpos : position (state w') = position (state w))
      by (now apply position_step).
    split; [exact Hd|]. split; [exact Hpos|].
    assert (Hvis : isVisible (state w') = isVisible (state w) /\
                   mounted (state w') = mounted (state w)).
    { split; [|now apply mounted_step].
      apply (@state_step_rel (fun c => match c with setIsVisible _ => false
                                                | _ => true end)
               (fun s s' => isVisible s' = isVisible s)); try congruence.
      - intros c s Hc. now destruct c.
      - cbn. intros s. now apply fine_handlePointerDown. }
    destruct Hvis as (Hv & Hm).
    unfold rendered in Hr. destruct (phase w); try discriminate Hr.
    unfold render in *. rewrite Hv, Hm.
    destruct (_ || _); [discriminate Hr|].
    eexists. split; [reflexivity|]. cbn. now split.
Qed.

Lemma X12_pointer_down_guard_witness :
  let w := run enabled_with_key init [Mount] in
  let secondary := {| pointerType := "mouse"; button := 2;
                      clientX := 50; clientY := 50 |} in
  let touch := {| pointerType := "touch"; button := 2;
                  clientX := 50; clientY := 50 |} in
  step enabled_with_key w (PointerDown secondary) = w /\
  isDragging (state (step enabled_with_key w (PointerDown touch))) = true.
Proof.
  intros w secondary touch. split.
  - apply (proj1 (@X12_pointer_down_guard enabled_with_key [Mount] secondary));
      [reflexivity | discriminate].
  - apply (proj2 (@X12_pointer_down_guard enabled_with_key [Mount] touch));
      [vm_compute; reflexivity | left; discriminate].
Defined.

(** ** A second pointer *)

(** Property X13.  A pointer-down accepted during a gesture (a second finger,
    say) starts the gesture anew: the callback queued by the last pointer-move
    is cancelled, so the position that move asked for is never applied (the
    next frame leaves the overlay where it is); the anchor is taken again from
    the new pointer, and the attached listeners close over the new anchor. *)
Theorem X13_second_pointer cfg pre m e :
  let w := run cfg init pre in
  let w1 := step cfg w (PointerMove m) in
  let w2 := step cfg w1 (PointerDown e) in
  rendered cfg w = true ->
  isDragging (state w) = true ->
  accepted e = true ->
  (exists h, frame_callbacks w1 = [(h, mkFrame m (dragOffset (state w)))]) /\
  frame_callbacks w2 = [] /\
  position (state (step cfg w2 AnimationFrame)) = position (state w) /\
  dragOffset (state w2) = minus e (position (state w)) /\
  window_listeners w2 <> [] /\
  (forall ev l,
     In (ev, l) (window_listeners w2) ->
     l_dragOffset l = minus e (position (state w))).
Proof.
  intros w w1 w2 Hr Hd Hacc.
  pose proof (tracking_inv_reachable cfg pre) as Hinv. fold w in Hinv.
  pose proof (rendered_alive _ _ Hr) as Hp.
  destruct (@move_spec cfg w m Hinv) as (Hs & Hp1 & Hf). fold w1 in Hs, Hp1, Hf.
  unfold alive in Hf. rewrite Hp, Hd in Hf. cbn [andb] in Hf.
  assert (Hinv1 : tracking_inv w1) by (now apply tracking_inv_step).
  assert (Hr1 : rendered cfg w1 = true)
    by (unfold rendered in *; now rewrite Hp1, Hs).
  destruct (@down_spec cfg w1 e Hinv1 Hr1 Hacc) as (Ho & Hd2 & Hf2 & Ha2).
  fold w2 in Ho, Hd2, Hf2, Ha2. rewrite Hs in Ho.
  assert (Hinv2 : tracking_inv w2) by (now apply tracking_inv_step).
  destruct (@frame_spec cfg w2 Hinv2) as (_ & Hpos). rewrite Hf2 in Hpos.
  destruct (attached_spec Hinv2) as (Hl & Hc & _).
  split; [eexists; exact Hf|]. split; [exact Hf2|].
  split; [|split; [exact Ho|split]].
  - rewrite Hpos. unfold w2. rewrite position_step by reflexivity.
    now rewrite Hs.
  - rewrite Hl, Ha2, Hd2. discriminate.
  - intros ev l Hin. destruct (Hc ev l Hin) as (_ & ->). exact Ho.
Qed.

Lemma X13_second_pointer_witness :
  let w := run enabled_with_key init [Mount; PointerDown (at_point 50 50)] in
  let w1 := step enabled_with_key w (PointerMove (at_point 80 80)) in
  let w2 := step enabled_with_key w1 (PointerDown (at_point 60 60)) in
  frame_callbacks w2 = [] /\
  position (state (step enabled_with_key w2 AnimationFrame))
  = position (state w).
Proof.
  intros w w1 w2.
  pose proof (@X13_second_pointer enabled_with_key
                [Mount; PointerDown (at_point 50 50)]
                (at_point 80 80) (at_point 60 60)
                ltac:(vm_compute; reflexivity) ltac:(vm_compute; reflexivity)
                eq_refl)
    as (_ & H2 & H3 & _).
  split; [exact H2 | exact H3].
Defined.

(** ** Hiding the overlay during a gesture *)

(** Property X14.  A navigation start during a gesture hides the overlay but
    does not end the gesture: the window listeners stay attached, a later
    pointer-move still queues a callback and the frame still moves the hidden
    overlay; the listeners go at the pointer-up. *)
Theorem X14_hidden_drag cfg pre m :
  let w := run cfg init pre in
  let w1 := step cfg w RouteChangeStart in
  let w2 := run cfg w1 [PointerMove m; AnimationFrame] in
  alive w = true ->
  isDragging (state w) = true ->
  render cfg (state w1) = None /\
  isDragging (state w1) = true /\
  window_listeners w1 = window_listeners w /\
  window_listeners w1 <> [] /\
  position (state w2) = minus m (dragOffset (state w)) /\
  window_listeners (step cfg w2 (PointerUp m)) = [].
Proof.
  intros w w1 w2 Ha Hd.
  pose proof (tracking_inv_reachable cfg pre) as Hinv. fold w in Hinv.
  assert (Hinv1 : tracking_inv w1) by (now apply tracking_inv_step).
  destruct (attached_spec Hinv) as (Hl & _ & Hrl).
  rewrite Ha in Hrl. rewrite Ha, Hd in Hl. cbn [andb] in Hl.
  assert (Hw1 : w1 = exec_all handleRouteChange w).
  { unfold w1. cbn [step]. rewrite Hrl. apply tracking_commit_id.
    eapply tracking_inv_ext; [|exact Hinv].
    symmetry. now apply exec_all_plain. }
  assert (Hv : drag_view w1 = drag_view w)
    by (rewrite Hw1; now apply exec_all_plain).
  assert (Ed : isDragging (state w1) = true)
    by (change (dv_isDragging (drag_view w1) = true); now rewrite Hv).
  assert (Eo : dragOffset (state w1) = dragOffset (state w))
    by (change (dv_dragOffset (drag_view w1) = dv_dragOffset (drag_view w));
        now rewrite Hv).
  assert (El : window_listeners w1 = window_listeners w)
    by (change (dv_window (drag_view w1) = dv_window (drag_view w));
        now rewrite Hv).
  assert (Ea : alive w1 = true).
  { unfold alive. change (phase w1) with (dv_phase (drag_view w1)).
    rewrite Hv. exact Ha. }
  split; [|split; [exact Ed | split; [exact El | split; [|split]]]].
  - apply render_hidden. right. right.
    rewrite Hw1, state_exec_all, Ha. reflexivity.
  - rewrite El, Hl. discriminate.
  - unfold w2. cbn [run fold_left].
    set (w3 := step cfg w1 (PointerMove m)).
    destruct (@move_spec cfg w1 m Hinv1) as (_ & _ & Hf). fold w3 in Hf.
    rewrite Ea, Ed in Hf. cbn [andb] in Hf.
    assert (Hinv3 : tracking_inv w3) by (now apply tracking_inv_step).
    destruct (@frame_spec cfg w3 Hinv3) as (_ & Hpos).
    rewrite Hpos, Hf. cbn [cb_event cb_dragOffset]. now rewrite Eo.
  - apply up_spec. unfold w2. now apply tracking_inv_run.
Qed.

Lemma X14_hidden_drag_witness :
  let w := run enabled_with_key init [Mount; PointerDown (at_point 50 50)] in
  let w1 := step enabled_with_key w RouteChangeStart in
  let w2 := run enabled_with_key w1
              [PointerMove (at_point 80 80); AnimationFrame] in
  render enabled_with_key (state w1) = None /\
  position (state w2) = minus (at_point 80 80) (dragOffset (state w)).
Proof.
  intros w w1 w2.
  pose proof (@X14_hidden_drag enabled_with_key
                [Mount; PointerDown (at_point 50 50)] (at_point 80 80)
                ltac:(vm_compute; reflexivity) ltac:(vm_compute; reflexivity))
    as (H1 & _ & _ & _ & H5 & _).
  split; [exact H1 | exact H5].
Defined.

(** ** After the unmount *)

Lemma requests_step cfg w ev :
  is_Mount ev = false -> requests (step cfg w ev) = requests w.
Proof.
  intros Hev. destruct (is_fetch_event ev) eqn:Ef.
  - destruct ev; try discriminate; cbn [step].
    destruct (Nat.eq_dec (pending_fetches w) 0) as [Hpf | Hne];
      [now rewrite Hpf|].
    now destruct (@settle_spec_any cfg w o Hne) as (_ & _ & Hr & _).
  - change (snd (fetch_view (step cfg w ev)) = snd (fetch_view w)).
    now rewrite fetch_view_step.
Qed.

Lemma dead_run cfg post :
  forall w,
    phase w = Dead ->
    phase (run cfg w post) = Dead /\
    state (run cfg w post) = state w /\
    requests (run cfg w post) = requests w.
Proof.
  induction post as [|ev post IH]; intros w Hp; [now repeat split|].
  change (run cfg w (ev :: post)) with (run cfg (step cfg w ev) post).
  assert (Hs : phase (step cfg w ev) = Dead /\
               state (step cfg w ev) = state w /\
               requests (step cfg w ev) = requests w).
  { destruct (is_Mount ev) eqn:Em.
    - destruct ev; try discriminate Em. cbn [step]. now rewrite Hp.
    - split; [rewrite phase_step, Hp; now destruct ev|].
      split; [|now apply requests_step].
      apply state_step_dead; [exact Em|]. unfold alive. now rewrite Hp. }
  destruct Hs as (Hp' & Hs & Hr).
  destruct (IH _ Hp') as (H1 & H2 & H3).
  split; [exact H1 | split; congruence].
Qed.

Lemma dead_detached w :
  tracking_inv w -> phase w = Dead ->
  window_listeners w = [] /\ route_listener w = false /\
  frame_callbacks w = [].
Proof.
  intros (_ & _ & Hq & He) Hp. unfold effects_inv in He. rewrite Hp in He.
  destruct He as (Hl & Hr). split; [exact Hl | split; [exact Hr|]].
  destruct Hq as [Hq | (Hc & _)]; [exact Hq | congruence].
Qed.

(** Property X15.  Unmounting a mounted component, at any moment (during a
    gesture, with a callback queued), removes both window listeners and the
    navigation handler and cancels the queued callback. From then on, whatever
    events follow, nothing is attached or queued again, nothing is rendered,
    no request is made, and the hook state stays what it was at the unmount. *)
Theorem X15_unmounted cfg pre post :
  let w := run cfg init (pre ++ [Unmount]) in
  let w' := run cfg w post in
  alive (run cfg init pre) = true ->
  (window_listeners w = [] /\ route_listener w = false /\
   frame_callbacks w = []) /\
  (window_listeners w' = [] /\ route_listener w' = false /\
   frame_callbacks w' = []) /\
  rendered cfg w' = false /\
  requests w' = requests w /\
  state w' = state w.
Proof.
  intros w w' Ha.
  assert (Hp : phase w = Dead).
  { unfold w. rewrite run_snoc, phase_step. unfold alive in Ha.
    now destruct (phase (run cfg init pre)). }
  destruct (@dead_run cfg post w Hp) as (Hp' & Hs & Hr).
  fold w' in Hp', Hs, Hr.
  split; [apply dead_detached; [apply tracking_inv_reachable | exact Hp]|].
  split.
  - apply dead_detached; [|exact Hp'].
    unfold w', w. rewrite <- run_app. apply tracking_inv_reachable.
  - split; [|now split]. unfold rendered. now rewrite Hp'.
Qed.

Lemma X15_unmounted_witness :
  let w := run enabled_with_key init
             ([Mount; PointerDown (at_point 50 50);
               PointerMove (at_point 80 80)] ++ [Unmount]) in
  let w' := run enabled_with_key w
              [AnimationFrame; PointerMove (at_point 90 90);
               RouteChangeStart] in
  frame_callbacks w = [] /\ window_listeners w = [] /\ state w' = state w.
Proof.
  intros w w'.
  pose proof (@X15_unmounted enabled_with_key
                [Mount; PointerDown (at_point 50 50);
                 PointerMove (at_point 80 80)]
                [AnimationFrame; PointerMove (at_point 90 90);
                 RouteChangeStart]
                ltac:(vm_compute; reflexivity))
    as ((H1 & _ & H3) & _ & _ & _ & H5).
  split; [exact H3 | split; [exact H1 | exact H5]].
Defined.

(** ** The feature switch *)

(** Property X16.  With the feature disabled, whatever events arrive: no
    request is ever made, nothing is ever rendered, no window listener is
    attached and no callback queued; the hooks of the fetch and of the drag
    keep their initial values ([loading] stays true, the collection empty, the
    overlay at the origin). *)
Theorem X16_disabled cfg evs :
  let w := run cfg init evs in
  BLOG.READWISE_ENABLED cfg = false ->
  requests w = [] /\
  pending_fetches w = 0 /\
  render cfg (state w) = None /\
  rendered cfg w = false /\
  highlights (state w) = [] /\
  loading (state w) = true /\
  error (state w) = None /\
  isDragging (state w) = false /\
  position (state w) = origin /\
  window_listeners w = [] /\
  frame_callbacks w = [].
Proof.
  intros w He.
  assert (Hrender : forall s, render cfg s = None)
    by (intros s; apply render_hidden; auto).
  assert (Hrendered : forall w0, rendered cfg w0 = false).
  { intros w0. unfold rendered. rewrite Hrender. now destruct (phase w0). }
  assert (H : fetch_view w = fetch_view init /\
              isDragging (state w) = false /\
              position (state w) = origin).
  { unfold w. clear w.
    induction evs as [|ev evs IH] using rev_ind; [now repeat split|].
    rewrite run_snoc. set (w := run cfg init evs) in *.
    destruct IH as (Hv & Hd & Hpos).
    pose proof (tracking_inv_reachable cfg evs) as Hinv. fold w in Hinv.
    split; [|split].
    - rewrite <- Hv. destruct (is_fetch_event ev) eqn:Ef;
        [|now apply fetch_view_step].
      destruct ev; try discriminate Ef; cbn [step].
      + destruct (phase w); try reflexivity.
        rewrite fetch_view_mount. unfold mount_effect. rewrite He.
        unfold fetch_view. rewrite !state_exec_all.
        destruct (no_fetch_exec_all
                    [setMounted true; console_log "%c ReadwiseModal useEffect 触发"]
                    (with_phase Alive w) eq_refl) as (-> & ->).
        reflexivity.
      + assert (Hpf : pending_fetches w = 0)
          by (change (snd (fst (fetch_view w)) = 0); now rewrite Hv).
        now rewrite Hpf.
    - destruct (is_PointerDown ev) eqn:Ed; [|now apply isDragging_step].
      destruct ev; try discriminate Ed. cbn [step]. now rewrite Hrendered.
    - rewrite <- Hpos.
      destruct (is_AnimationFrame ev) eqn:Ef; [|now apply position_step].
      destruct ev; try discriminate Ef.
      destruct (@frame_spec cfg w Hinv) as (_ & ->).
      destruct Hinv as (_ & _ & [-> | (_ & Hc & _)] & _);
        [reflexivity | congruence]. }
  destruct H as (Hv & Hd & Hpos).
  unfold fetch_view in Hv. cbn in Hv. injection Hv as Eh El Ee Ep Er.
  pose proof (tracking_inv_reachable cfg evs) as Hinv. fold w in Hinv.
  destruct (attached_spec Hinv) as (Hl & _).
  rewrite Hd, andb_false_r in Hl.
  repeat split; auto.
  destruct Hinv as (_ & _ & [Hq | (_ & Hc & _)] & _);
    [exact Hq | congruence].
Qed.

Lemma X16_disabled_witness :
  let cfg := {| BLOG.READWISE_ENABLED := false;
                BLOG.READWISE_API_KEY := Some "X" |} in
  let w := run cfg init
             [Mount; PointerDown (at_point 50 50);
              PointerMove (at_point 80 80); AnimationFrame] in
  requests w = [] /\ position (state w) = origin.
Proof.
  intros cfg w.
  pose proof (@X16_disabled cfg
                [Mount; PointerDown (at_point 50 50);
                 PointerMove (at_point 80 80); AnimationFrame] eq_refl)
    as (H1 & _ & _ & _ & _ & _ & _ & _ & H9 & _).
  split; [exact H1 | exact H9].
Defined.

(** ** One fetch, no retry *)

(** Property X17.  Once the fetch of a mounted or unmounted component has
    settled, with whatever outcome, nothing is outstanding and the outcome is
    final: after every further sequence of events no other request has been
    made and [highlights], [loading] and [error] are what the settled fetch
    left. In particular a failure is never retried. *)
Theorem X17_no_retry cfg pre o post :
  let w := run cfg init (pre ++ [FetchSettled o]) in
  let w' := run cfg w post in
  phase w <> Fresh ->
  pending_fetches w = 0 /\
  pending_fetches w' = 0 /\
  requests w' = requests w /\
  highlights (state w') = highlights (state w) /\
  loading (state w') = loading (state w) /\
  error (state w') = error (state w).
Proof.
  intros w w' Hp.
  assert (Hpf : pending_fetches w = 0).
  { unfold w. rewrite run_snoc. set (w0 := run cfg init pre).
    destruct (fetch_inv_reachable cfg pre) as (_ & F2 & _). fold w0 in F2.
    destruct (Nat.eq_dec (pending_fetches w0) 0) as [E | E].
    - cbn [step]. now rewrite E.
    - destruct (@settle_spec_any cfg w0 o E) as (_ & -> & _).
      destruct (F2 E) as (_ & ->). reflexivity. }
  pose proof (@settled_run cfg post w Hp Hpf) as Hv. fold w' in Hv.
  unfold fetch_view in Hv. injection Hv as Eh El Ee Ep Er.
  rewrite Ep. now repeat split.
Qed.

Lemma X17_no_retry_witness :
  let w := run enabled_with_key init
             ([Mount] ++ [FetchSettled (Rejected "Failed to fetch")]) in
  let w' := run enabled_with_key w
              [ClickRefresh (3 # 4); FetchSettled (json_response (Some [item "a"]))] in
  requests w' = requests w /\ error (state w') = error (state w).
Proof.
  intros w w'.
  pose proof (@X17_no_retry enabled_with_key [Mount]
                (Rejected "Failed to fetch")
                [ClickRefresh (3 # 4);
                 FetchSettled (json_response (Some [item "a"]))]
                ltac:(vm_compute; discriminate))
    as (_ & _ & H3 & _ & _ & H6).
  split; [exact H3 | exact H6].
Defined.

(** ** A tap *)

(** Property X18.  A pointer-down followed by a pointer-up, with no
    pointer-move in between, never moves the overlay, in whatever world it
    happens: the position is unchanged by the two events and by everything
    that follows up to the next pointer-down, frames included, and the window
    listeners are gone after the pointer-up. *)
Theorem X18_tap cfg pre e e' post :
  let w := run cfg init pre in
  let w1 := run cfg w [PointerDown e; PointerUp e'] in
  let w2 := run cfg w1 post in
  no_PointerDown post = true ->
  window_listeners w1 = [] /\
  position (state w1) = position (state w) /\
  position (state w2) = position (state w) /\
  position (state (step cfg w2 AnimationFrame)) = position (state w).
Proof.
  intros w w1 w2 Hpost.
  set (w0 := step cfg w (PointerDown e)).
  assert (Hw1 : w1 = step cfg w0 (PointerUp e')) by reflexivity.
  assert (Hinv0 : tracking_inv w0)
    by (apply tracking_inv_step, tracking_inv_reachable).
  destruct (@up_spec cfg w0 e' Hinv0) as (_ & Hl & Hd). rewrite <- Hw1 in Hl, Hd.
  assert (Hidle : idle w1)
    by (split; [rewrite Hw1; now apply tracking_inv_step | exact Hd]).
  assert (Hpos : position (state w1) = position (state w)).
  { rewrite Hw1. unfold w0. now rewrite !position_step by reflexivity. }
  destruct (@idle_run cfg post w1 Hpost Hidle) as (Hidle2 & Hpos2).
  fold w2 in Hidle2, Hpos2.
  destruct (@idle_step cfg w2 AnimationFrame eq_refl Hidle2) as (_ & Hpos3).
  split; [exact Hl|]. split; [exact Hpos|]. split; congruence.
Qed.

Lemma X18_tap_witness :
  let w := run enabled_with_key init [Mount] in
  let w1 := run enabled_with_key w
              [PointerDown (at_point 50 50); PointerUp (at_point 50 50)] in
  let w2 := run enabled_with_key w1 [PointerMove (at_point 80 80)] in
  window_listeners w1 = [] /\
  position (state (step enabled_with_key w2 AnimationFrame))
  = position (state w).
Proof.
  intros w w1 w2.
  pose proof (@X18_tap enabled_with_key [Mount] (at_point 50 50)
                (at_point 50 50) [PointerMove (at_point 80 80)] eq_refl)
    as (H1 & _ & _ & H4).
  split; [exact H1 | exact H4].
Defined.

(** ** The request *)

(** Property X19.  The requests a component instance has made, in every
    reachable world: exactly one, the GET request of the review endpoint
    carrying the configured key as its token, once the component has been
    mounted with the feature enabled and a non-empty key configured; none in
    every other case. *)
Theorem X19_request cfg evs :
  let w := run cfg init evs in
  requests w
  = if mounted (state w) && BLOG.READWISE_ENABLED cfg
       && JS.truthy (BLOG.READWISE_API_KEY cfg)
    then [review_request cfg]
    else [].
Proof.
  cbn zeta. induction evs as [|ev evs IH] using rev_ind; [reflexivity|].
  rewrite run_snoc. set (w := run cfg init evs) in *.
  destruct (display_inv_reachable cfg evs) as (D1 & _). fold w in D1.
  destruct (display_inv_reachable cfg (evs ++ [ev])) as (D1' & _).
  rewrite run_snoc in D1'. fold w in D1'.
  destruct (fetch_inv_reachable cfg evs) as (_ & _ & _ & F4). fold w in F4.
  destruct (is_Mount ev) eqn:Em.
  - destruct ev; try discriminate Em. cbn [step] in *.
    destruct (phase w) eqn:Hp; try exact IH.
    destruct (F4 eq_refl) as (_ & _ & Hr).
    assert (Hm : mounted (state (mount cfg w)) = true).
    { apply D1'. pose proof (phase_step cfg w Mount) as Hq.
      cbn [step] in Hq. rewrite Hp in Hq. rewrite Hq. discriminate. }
    rewrite Hm. cbn [andb].
    change (requests (mount cfg w)) with (snd (fetch_view (mount cfg w))).
    rewrite fetch_view_mount. unfold fetch_view. cbn [snd].
    unfold mount_effect, fetchAllHighlights, review_request.
    world w. cbn in Hr. subst rq.
    destruct (BLOG.READWISE_ENABLED cfg); [|reflexivity].
    now destruct (JS.truthy (BLOG.READWISE_API_KEY cfg)).
  - rewrite requests_step, mounted_step by exact Em. exact IH.
Qed.
